(** * Bidirectional SSE server: session registry, push and response channels

    A shallow embedding of [go/cmd/bidirectional_server/main.go]: the
    [Server] with its two maps from client identifiers to Go channels, the
    three methods [addClient], [removeClient] and [sendRequest], and the
    three HTTP handlers [/events], [/response] and [/trigger].

    Go channels are shared heap objects: a handler keeps the channel it was
    handed while the maps may already point elsewhere.  The embedding keeps
    the channels in two stores (one per element type) and the maps hold
    addresses into these stores.

    The handlers run in goroutines of their own.  Every method body runs
    under the server's mutex and reads or writes the maps only there, so
    it is taken as one atomic step; a receive in a [select] is a step of
    its own.  A channel operation that cannot proceed yields [Blocks] and
    leaves the state as it is, a runtime panic yields [Panics].  The read
    lock a suspended send keeps is not modelled: it only removes
    interleavings, so every run of the Go program is a run here.

    Time enters in two places: the Unix second a request identifier is
    made from, and whether the 30 second timer of [/trigger] has fired when
    its [select] is scheduled.  Both are inputs of the steps.  [log.Printf]
    calls and response headers are left out. *)

From stdpp Require Import base gmap list strings pretty.
From Stdlib Require Import ZArith Lia.

(** ** Wire records *)

Module Request.
Record t := mk { ID : string; Method : string; Message : string }.
End Request.

Module Response.
Record t := mk { ID : string; Result : string }.
(** The zero value a receive on a closed, drained channel yields. *)
Definition zero : t := mk "" "".
End Response.

(** ** Outcome of an operation that may block or panic *)

Inductive outcome (A : Type) : Type :=
| Done (a : A)
| Blocks
| Panics.
Arguments Done {A} a.
Arguments Blocks {A}.
Arguments Panics {A}.

#[global] Instance outcome_ret : MRet outcome := fun A a => Done a.

#[global] Instance outcome_bind : MBind outcome := fun A B k m =>
  match m with
  | Done a => k a
  | Blocks => Blocks
  | Panics => Panics
  end.

(** ** Buffered Go channels *)

Module Chan.
Section Chan.
Context {A : Type}.

Record t := mk { buf : list A; cap : nat; closed : bool }.

(** [make(chan A, n)] *)
Definition make (n : nat) : t := mk [] n false.

(** [c <- x]: panics on a closed channel, blocks while the buffer is
    full, appends at the tail otherwise. *)
Definition send (x : A) (c : t) : outcome t :=
  if closed c then Panics
  else if length (buf c) <? cap c then Done (mk (buf c ++ [x]) (cap c) false)
  else Blocks.

(** [x, ok := <-c]: takes the head of the buffer; on an empty buffer a
    closed channel yields [ok = false] (here [None]) and an open one
    blocks. *)
Definition recv (c : t) : outcome (option A * t) :=
  match buf c with
  | x :: rest => Done (Some x, mk rest (cap c) (closed c))
  | [] => if closed c then Done (None, c) else Blocks
  end.

(** [close(c)]: panics when the channel is closed already. *)
Definition close (c : t) : outcome t :=
  if closed c then Panics else Done (mk (buf c) (cap c) true).

(** A receive can proceed: this is when a [select] case on the channel
    is ready. *)
Definition recv_ready (c : t) : bool :=
  match buf c with
  | _ :: _ => true
  | [] => closed c
  end.

End Chan.
Arguments t A : clear implicits.
End Chan.

(** ** The server *)

(** [clients] and [responses] are the two maps of the Go struct; their
    values are addresses into [requestChans] and [responseChans], the
    stores of all channels made so far. *)
Record Server := mkServer {
  clients : gmap string nat;
  responses : gmap string nat;
  requestChans : list (Chan.t Request.t);
  responseChans : list (Chan.t Response.t)
}.

Definition NewServer : Server := mkServer ∅ ∅ [] [].

(** Run a channel operation on the request channel at address [ch] and
    store the channel back.  An address outside the store does not exist
    in a Go program; it is mapped to [Panics]. *)
Definition on_requestChan {R} (ch : nat)
    (f : Chan.t Request.t -> outcome (R * Chan.t Request.t))
    (s : Server) : outcome (R * Server) :=
  match requestChans s !! ch with
  | None => Panics
  | Some c =>
      '(r, c') ← f c;
      Done (r, mkServer (clients s) (responses s)
                        (<[ch := c']> (requestChans s)) (responseChans s))
  end.

Definition on_responseChan {R} (ch : nat)
    (f : Chan.t Response.t -> outcome (R * Chan.t Response.t))
    (s : Server) : outcome (R * Server) :=
  match responseChans s !! ch with
  | None => Panics
  | Some c =>
      '(r, c') ← f c;
      Done (r, mkServer (clients s) (responses s)
                        (requestChans s) (<[ch := c']> (responseChans s)))
  end.

Definition unit_op {A} (f : Chan.t A -> outcome (Chan.t A))
    (c : Chan.t A) : outcome (unit * Chan.t A) :=
  c' ← f c; Done (tt, c').

(** Capacity of both channels of a session, [make(chan _, 10)]. *)
Definition chanCap : nat := 10.

(** [func (s *Server) addClient(clientID string) chan Request] *)
Definition addClient (clientID : string) (s : Server) : nat * Server :=
  let requestChan := length (requestChans s) in
  let responseChan := length (responseChans s) in
  (requestChan,
   mkServer (<[clientID := requestChan]> (clients s))
            (<[clientID := responseChan]> (responses s))
            (requestChans s ++ [Chan.make chanCap])
            (responseChans s ++ [Chan.make chanCap])).

(** [func (s *Server) removeClient(clientID string)] *)
Definition removeClient (clientID : string) (s : Server) : outcome Server :=
  s1 ← match clients s !! clientID with
        | Some ch =>
            '(_, s') ← on_requestChan ch (unit_op Chan.close) s;
            Done (mkServer (delete clientID (clients s')) (responses s')
                           (requestChans s') (responseChans s'))
        | None => Done s
        end;
  match responses s1 !! clientID with
  | Some ch =>
      '(_, s') ← on_responseChan ch (unit_op Chan.close) s1;
      Done (mkServer (clients s') (delete clientID (responses s'))
                     (requestChans s') (responseChans s'))
  | None => Done s1
  end.

(** [func (s *Server) sendRequest(clientID string, req Request) <-chan Response]:
    the result [None] is the nil channel. *)
Definition sendRequest (clientID : string) (req : Request.t) (s : Server)
  : outcome (option nat * Server) :=
  match clients s !! clientID with
  | Some clientChan =>
      '(_, s') ← on_requestChan clientChan (unit_op (Chan.send req)) s;
      Done (responses s' !! clientID, s')
  | None => Done (None, s)
  end.

(** ** HTTP handlers *)

(** What a handler answers: the status code and what it writes. *)
Inductive payload :=
| NoBody
| Text (s : string)
| Json (r : Response.t).

Record reply := mkReply { status : nat; body : payload }.

Definition StatusOK : nat := 200.
Definition StatusBadRequest : nat := 400.
Definition StatusNotFound : nat := 404.
Definition StatusMethodNotAllowed : nat := 405.
Definition StatusRequestTimeout : nat := 408.

(** A [select] with a receive case and one other case (the request
    context's [Done] or the timer).  When both are ready the runtime picks
    one; [pick] is that choice. *)
Inductive select_case := RecvCase | OtherCase.

Definition select2 (recv_ready other_ready : bool) (pick : select_case)
  : option select_case :=
  match recv_ready, other_ready with
  | true, true => Some pick
  | true, false => Some RecvCase
  | false, true => Some OtherCase
  | false, false => None
  end.

(** *** [/events] *)

(** One record written to the stream: ["data: " ++ json ++ "\n\n"], where
    the json is the client-id message or the marshalled request. *)
Inductive frame :=
| ClientIDFrame (id : string)
| RequestFrame (req : Request.t).

(** The identifier of a connecting client: the query parameter, or
    [fmt.Sprintf("client_%d", time.Now().Unix())] when it is empty. *)
Definition eventsClientID (client_id : string) (now : Z) : string :=
  if decide (client_id = ""%string) then "client_" +:+ pretty now else client_id.


Inductive loop_step :=
| Wrote (f : frame)
| Return.

(** One iteration of the [for { select { ... } }] loop of the handler. *)
Definition events_loop (requestChan : nat) (ctxDone : bool)
    (pick : select_case) (s : Server) : outcome (loop_step * Server) :=
  match requestChans s !! requestChan with
  | None => Panics
  | Some c =>
      match select2 (Chan.recv_ready c) ctxDone pick with
      | None => Blocks
      | Some OtherCase => Done (Return, s)
      | Some RecvCase =>
          '(r, s') ← on_requestChan requestChan Chan.recv s;
          match r with
          | Some req => Done (Wrote (RequestFrame req), s')
          | None => Done (Return, s')
          end
      end
  end.

(** The deferred [server.removeClient(clientID)] runs when the loop
    returns. *)
Definition events_exit (clientID : string) (s : Server) : outcome Server :=
  removeClient clientID s.

(** *** [/response] *)

(** [body] is the decoded request body, [None] when decoding fails;
    [clientID] is the [Client-ID] header. *)
Definition response_handler (method : string) (body : option Response.t)
    (clientID : string) (s : Server) : outcome (reply * Server) :=
  if decide (method = "POST"%string) then
    match body with
    | None => Done (mkReply StatusBadRequest NoBody, s)
    | Some response =>
        s' ← match responses s !! clientID with
             | Some respChan =>
                 '(_, s') ← on_responseChan respChan
                              (unit_op (Chan.send response)) s;
                 Done s'
             | None => Done s
             end;
        Done (mkReply StatusOK NoBody, s')
    end
  else Done (mkReply StatusMethodNotAllowed NoBody, s).

(** *** [/trigger] *)

(** [fmt.Sprintf("req_%d", time.Now().Unix())] *)
Definition requestID (now : Z) : string := "req_" +:+ pretty now.

Definition newRequest (now : Z) (message : string) : Request.t :=
  Request.mk (requestID now) "analyze" message.

Inductive trigger_state :=
| Replied (r : reply)
| Waiting (respChan : nat).

(** [respChan := server.sendRequest(clientID, req)] and the nil check
    that follows it. *)
Definition trigger_dispatch (clientID : string) (req : Request.t) (s : Server)
  : outcome (trigger_state * Server) :=
  '(respChan, s') ← sendRequest clientID req s;
  match respChan with
  | None => Done (Replied (mkReply StatusNotFound (Text "Client not found")), s')
  | Some ch => Done (Waiting ch, s')
  end.

(** The handler up to its [select]: parameter check, request
    construction and dispatch. *)
Definition trigger_start (clientID message : string) (now : Z) (s : Server)
  : outcome (trigger_state * Server) :=
  if decide (clientID = ""%string ∨ message = ""%string) then
    Done (Replied (mkReply StatusBadRequest
                     (Text "Need client_id and message parameters")), s)
  else trigger_dispatch clientID (newRequest now message) s.

(** The [select] of the handler: a response from [respChan], or
    [time.After(30 * time.Second)] ([timerFired] says whether the 30
    seconds have elapsed).  A single-value receive from a closed, drained
    channel yields the zero [Response]. *)
Definition trigger_wait (respChan : nat) (timerFired : bool)
    (pick : select_case) (s : Server) : outcome (reply * Server) :=
  match responseChans s !! respChan with
  | None => Panics
  | Some c =>
      match select2 (Chan.recv_ready c) timerFired pick with
      | None => Blocks
      | Some OtherCase =>
          Done (mkReply StatusRequestTimeout (Text "Request timeout"), s)
      | Some RecvCase =>
          '(r, s') ← on_responseChan respChan Chan.recv s;
          Done (mkReply StatusOK (Json (default Response.zero r)), s')
      end
  end.

(** ** Runs of the server

    The handlers run concurrently; a run of the server is an interleaving
    of their atomic steps.  A step that blocks is not part of a run: the
    goroutine retries it later. *)
Inductive op :=
| Connect (clientID : string)
| Disconnect (clientID : string)
| Dispatch (clientID : string) (req : Request.t)
| Submit (clientID : string) (response : Response.t)
| Stream (requestChan : nat) (ctxDone : bool) (pick : select_case)
| Await (respChan : nat) (timerFired : bool) (pick : select_case).

(** What a step lets the outside observe. *)
Inductive obs :=
| Silent
| Written (requestChan : nat) (f : frame)
| StreamEnd (requestChan : nat)
| Answer (respChan : nat) (r : reply).

Definition exec (o : op) (s : Server) : outcome (obs * Server) :=
  match o with
  | Connect clientID => Done (Silent, (addClient clientID s).2)
  | Disconnect clientID => s' ← removeClient clientID s; Done (Silent, s')
  | Dispatch clientID req =>
      '(_, s') ← sendRequest clientID req s; Done (Silent, s')
  | Submit clientID response =>
      '(_, s') ← response_handler "POST" (Some response) clientID s;
      Done (Silent, s')
  | Stream requestChan ctxDone pick =>
      '(r, s') ← events_loop requestChan ctxDone pick s;
      match r with
      | Wrote f => Done (Written requestChan f, s')
      | Return => Done (StreamEnd requestChan, s')
      end
  | Await respChan timerFired pick =>
      '(r, s') ← trigger_wait respChan timerFired pick s;
      Done (Answer respChan r, s')
  end.

Fixpoint run (tr : list op) (s : Server) : outcome (list obs * Server) :=
  match tr with
  | [] => Done ([], s)
  | o :: tr' =>
      '(x, s1) ← exec o s;
      '(xs, s2) ← run tr' s1;
      Done (x :: xs, s2)
  end.



(** No step of the run replaces or ends the session of [clientID]. *)
Fixpoint session_kept (clientID : string) (tr : list op) : bool :=
  match tr with
  | [] => true
  | Connect c :: tr' | Disconnect c :: tr' =>
      bool_decide (c ≠ clientID) && session_kept clientID tr'
  | _ :: tr' => session_kept clientID tr'
  end.

(** Buffers of the channels at an address; empty for no channel. *)
Definition requestBuf (ch : nat) (s : Server) : list Request.t :=
  from_option Chan.buf [] (requestChans s !! ch).

Definition responseBuf (ch : nat) (s : Server) : list Response.t :=
  from_option Chan.buf [] (responseChans s !! ch).

(** ** The registry invariant

    Every channel a map points to exists, is open and has capacity 10; no
    two clients share a channel; the two maps have the same keys. *)
Record wf (s : Server) : Prop := mkWf {
  wf_requests : ∀ c ch, clients s !! c = Some ch →
    ∃ q, requestChans s !! ch = Some q
         ∧ Chan.closed q = false ∧ Chan.cap q = chanCap;
  wf_responses : ∀ c ch, responses s !! c = Some ch →
    ∃ q, responseChans s !! ch = Some q
         ∧ Chan.closed q = false ∧ Chan.cap q = chanCap;
  wf_clients_inj : ∀ c1 c2 ch,
    clients s !! c1 = Some ch → clients s !! c2 = Some ch → c1 = c2;
  wf_responses_inj : ∀ c1 c2 ch,
    responses s !! c1 = Some ch → responses s !! c2 = Some ch → c1 = c2;
  wf_same_keys : ∀ c, clients s !! c = None ↔ responses s !! c = None
}.

(** ** States the operations lead to *)

(** The state [removeClient] leaves for a registered client: both
    channels closed, both entries deleted. *)
Definition closedSession (clientID : string) (ch rh : nat)
    (q : Chan.t Request.t) (r : Chan.t Response.t) (s : Server) : Server :=
  mkServer (delete clientID (clients s)) (delete clientID (responses s))
           (<[ch := Chan.mk (Chan.buf q) (Chan.cap q) true]> (requestChans s))
           (<[rh := Chan.mk (Chan.buf r) (Chan.cap r) true]> (responseChans s)).

(** The state after [clientChan <- req] went through. *)
Definition pushed (ch : nat) (q : Chan.t Request.t) (req : Request.t)
    (s : Server) : Server :=
  mkServer (clients s) (responses s)
           (<[ch := Chan.mk (Chan.buf q ++ [req]) (Chan.cap q) false]>
              (requestChans s))
           (responseChans s).

(** The state after [respChan <- response] went through. *)
Definition answered (rh : nat) (r : Chan.t Response.t)
    (response : Response.t) (s : Server) : Server :=
  mkServer (clients s) (responses s) (requestChans s)
           (<[rh := Chan.mk (Chan.buf r ++ [response]) (Chan.cap r) false]>
              (responseChans s)).

(** The state after the stream loop received the head of [q]. *)
Definition popped (ch : nat) (q : Chan.t Request.t) (rest : list Request.t)
    (s : Server) : Server :=
  mkServer (clients s) (responses s)
           (<[ch := Chan.mk rest (Chan.cap q) (Chan.closed q)]> (requestChans s))
           (responseChans s).

(** The state after a waiting [/trigger] received the head of [r]. *)
Definition taken (rh : nat) (r : Chan.t Response.t) (rest : list Response.t)
    (s : Server) : Server :=
  mkServer (clients s) (responses s) (requestChans s)
           (<[rh := Chan.mk rest (Chan.cap r) (Chan.closed r)]> (responseChans s)).

(** ** Concrete sessions *)

(** Client ["c1"] is connected; three requests are dispatched while its
    stream loop runs. *)
Module Scenario.
Definition r1 : Request.t := newRequest 100 "one".
Definition r2 : Request.t := newRequest 101 "two".
Definition connected : Server := (addClient "c1" NewServer).2.
End Scenario.

(** A response left in the queue of ["c1"], then a dispatch and its
    matching response. *)
Module Stale.
Definition stale : Response.t := Response.mk "req_1" "old".
Definition good : Response.t :=
  Response.mk (requestID 2) "Analysis complete: hello".
Definition s1 : Server :=
  answered 0 (Chan.make chanCap) stale Scenario.connected.
Definition s2 : Server :=
  pushed 0 (Chan.make chanCap) (newRequest 2 "hello") s1.
Definition s3 : Server := answered 0 (Chan.mk [stale] chanCap false) good s2.
Definition s4 : Server :=
  taken 0 (Chan.mk [stale; good] chanCap false) [good] s3.
End Stale.

(** Ten requests queued on the push channel of ["c1"]. *)
Module Full.
Definition req : Request.t := newRequest 7 "x".
Definition full : Server :=
  mkServer (clients Scenario.connected) (responses Scenario.connected)
           [Chan.mk (replicate 10 req) chanCap false]
           (responseChans Scenario.connected).
End Full.

(** A dispatch to ["c1"], a response submitted after its timeout, and the
    next dispatch. *)
Module Late.
Definition late : Response.t := Response.mk (requestID 2) "too late".
Definition s1 : Server :=
  pushed 0 (Chan.make chanCap) (newRequest 2 "hello") Scenario.connected.
Definition s2 : Server := answered 0 (Chan.make chanCap) late s1.
Definition s3 : Server :=
  pushed 0 (Chan.mk [newRequest 2 "hello"] chanCap false)
         (newRequest 50 "again") s2.
Definition s4 : Server := taken 0 (Chan.mk [late] chanCap false) [] s3.
End Late.

(** ["c1"] connects a second time while a dispatch waits. *)
Module Reconnect.
Definition s1 : Server :=
  pushed 0 (Chan.make chanCap) (newRequest 2 "hello") Scenario.connected.
Definition s2 : Server := (addClient "c1" s1).2.
End Reconnect.

(** A response for a client that never connected. *)
Module Unknown.
Definition response : Response.t := Response.mk "req_9" "nobody asked".
End Unknown.

(** Two dispatches to ["c1"] within one second. *)
Module Collide.
Definition now : Z := 1700000000.
Definition s1 : Server :=
  pushed 0 (Chan.make chanCap) (newRequest now "first") Scenario.connected.
Definition s2 : Server :=
  pushed 0 (Chan.mk [newRequest now "first"] chanCap false)
         (newRequest now "second") s1.
End Collide.

(** A second client comes and goes while ["c1"] has a request and a
    response queued. *)
Module Neighbour.
Definition visit : list op :=
  [Connect "c2"; Dispatch "c2" Scenario.r1; Submit "c2" Stale.stale;
   Stream 1 false RecvCase; Await 1 false RecvCase; Disconnect "c2"].
Definition handlers_only : list op :=
  [Dispatch "ghost" Scenario.r1; Submit "ghost" Stale.stale;
   Dispatch "c1" Scenario.r2; Submit "c1" Stale.good;
   Stream 0 false RecvCase; Await 0 false RecvCase].
End Neighbour.

(** Two responses submitted for ["c1"] around a dispatch, and two waits. *)
Module Answers.
Definition a : Response.t := Response.mk "req_1" "first answer".
Definition b : Response.t := Response.mk "req_2" "second answer".
Definition exchange : list op :=
  [Submit "c1" a; Dispatch "c1" Scenario.r1; Submit "c1" b;
   Await 0 false RecvCase; Await 0 true RecvCase].
End Answers.

(** ** Further observations of a run *)

(** The responses the waiting handlers received from [respChan], in
    order. *)
Fixpoint received (respChan : nat) (xs : list obs) : list Response.t :=
  match xs with
  | [] => []
  | Answer rh (mkReply _ (Json x)) :: xs' =>
      if decide (rh = respChan) then x :: received respChan xs'
      else received respChan xs'
  | _ :: xs' => received respChan xs'
  end.

(** The responses submitted for [clientID], in call order. *)
Fixpoint submitted (clientID : string) (tr : list op) : list Response.t :=
  match tr with
  | [] => []
  | Submit c response :: tr' =>
      if decide (c = clientID) then response :: submitted clientID tr'
      else submitted clientID tr'
  | _ :: tr' => submitted clientID tr'
  end.

(** The channel a handler step works on has been made.  A handler holds
    only channels that [addClient] or [sendRequest] handed to it. *)
Definition op_allocated (o : op) (s : Server) : Prop :=
  match o with
  | Stream ch _ _ => ch < length (requestChans s)
  | Await rh _ _ => rh < length (responseChans s)
  | _ => True
  end.

(** The step names the client, or works on one of the two channels. *)
Definition touches (clientID : string) (ch rh : nat) (o : op) : bool :=
  match o with
  | Connect c | Disconnect c | Dispatch c _ | Submit c _ =>
      bool_decide (c = clientID)
  | Stream ch' _ _ => bool_decide (ch' = ch)
  | Await rh' _ _ => bool_decide (rh' = rh)
  end.

(** The step is an [addClient] or a [removeClient]. *)
Definition registry_step (o : op) : bool :=
  match o with
  | Connect _ | Disconnect _ => true
  | _ => false
  end.

(** Every channel made so far has capacity 10 and holds no more than
    that. *)
Definition within_cap {A} (q : Chan.t A) : Prop :=
  length (Chan.buf q) ≤ Chan.cap q ∧ Chan.cap q = chanCap.

Definition bounded (s : Server) : Prop :=
  Forall within_cap (requestChans s) ∧ Forall within_cap (responseChans s).

(** ** Records on the wire

    What the servers write and the clients read: one record per event,
    ["data: "], the payload and two line feeds. *)

Definition LF : Ascii.ascii := Ascii.ascii_of_nat 10.
Definition CR : Ascii.ascii := Ascii.ascii_of_nat 13.

(** [fmt.Fprintf(w, "data: %s\n\n", payload)] *)
Definition sse_record (payload : string) : string :=
  "data: " +:+ payload +:+ String LF (String LF "").

(** Everything a handler wrote, record after record. *)
Definition stream_text (records : list string) : string :=
  foldr String.append "" records.

(** [strings.HasPrefix(s, prefix)] *)
Definition HasPrefix (s prefix : string) : bool := String.prefix prefix s.

Fixpoint string_drop (n : nat) (s : string) : string :=
  match n, s with
  | 0, _ => s
  | S n', String _ s' => string_drop n' s'
  | S _, EmptyString => EmptyString
  end.

(** [strings.TrimPrefix(s, prefix)] *)
Definition TrimPrefix (s prefix : string) : string :=
  if HasPrefix s prefix then string_drop (String.length prefix) s else s.

(** *** [bufio.Scanner] with its default split function [ScanLines] *)

(** [bufio.MaxScanTokenSize]: the scanner gives up with [ErrTooLong] when
    its buffer holds this many bytes and no line feed. *)
Definition MaxScanTokenSize : N := 65536.

(** [dropCR]: a line loses one trailing carriage return. *)
Fixpoint dropCR (s : string) : string :=
  match s with
  | EmptyString => EmptyString
  | String c EmptyString => if Ascii.eqb c CR then EmptyString else s
  | String c s' => String c (dropCR s')
  end.

(** The lines [scanner.Scan()] delivers for the bytes [data] of a body
    that ends with end-of-file, and whether the scan ended with
    [ErrTooLong].  [cur] is the part of the current line read so far.
    A last line without line feed is delivered too, unless it is empty.
    (For a last line without line feed of exactly 65536 bytes Go's result
    depends on whether the reader reports end-of-file together with the
    last bytes; here it is reported after them.) *)
Fixpoint scan_lines_go (cur data : string) : list string * bool :=
  match data with
  | EmptyString =>
      (if decide (cur = EmptyString) then [] else [dropCR cur], false)
  | String c rest =>
      if Ascii.eqb c LF then
        let '(lines, tooLong) := scan_lines_go EmptyString rest in
        (dropCR cur :: lines, tooLong)
      else
        let cur' := cur +:+ String c EmptyString in
        if (N.of_nat (String.length cur') <? MaxScanTokenSize)%N
        then scan_lines_go cur' rest
        else ([], true)
  end.

Definition scan_lines (data : string) : list string * bool :=
  scan_lines_go EmptyString data.

(** A payload that survives the framing: no line feed in it, no carriage
    return at its end, and short enough for the scanner with its six
    bytes of prefix. *)
Fixpoint no_LF (s : string) : bool :=
  match s with
  | EmptyString => true
  | String c s' => negb (Ascii.eqb c LF) && no_LF s'
  end.

Fixpoint ends_with_CR (s : string) : bool :=
  match s with
  | EmptyString => false
  | String c EmptyString => Ascii.eqb c CR
  | String _ s' => ends_with_CR s'
  end.

Definition wire_safe (payload : string) : Prop :=
  no_LF payload = true ∧ ends_with_CR payload = false
  ∧ (N.of_nat (String.length payload) + 6 < MaxScanTokenSize)%N.

(** ** The basic SSE client, [go/cmd/basic_sse_client] *)

(** What the client logs for a line: ["Received: ..."] or
    ["Other line: ..."]. *)
Inductive log_line :=
| Received (data : string)
| OtherLine (line : string).

(** The body of the [for scanner.Scan()] loop; [None] for a skipped
    line. *)
Definition basic_client_line (line : string) : option log_line :=
  if decide (line = EmptyString) then None
  else if HasPrefix line "data: "
       then Some (Received (TrimPrefix line "data: "))
       else Some (OtherLine line).

(** The loop over the response body, and whether [scanner.Err()] is
    logged as a connection error afterwards. *)
Definition basic_client (body : string) : list log_line * bool :=
  let '(lines, tooLong) := scan_lines body in
  (omap basic_client_line lines, tooLong).

(** ** The basic SSE server, [go/cmd/basic_sse_server] *)

(** [fmt.Sprintf("data: Event %d at %s\n\n", i, time.Now().Format("15:04:05"))] *)
Definition basic_event_payload (i : nat) (stamp : string) : string :=
  "Event " +:+ pretty i +:+ " at " +:+ stamp.

(** The loop [for i := 1; i <= 10; i++] of the handler, [n] iterations
    from [i] on: [clock i] is the formatted time read in iteration [i],
    [writeOk i] whether the write of that iteration succeeds.  The result
    is what reached the client; the handler returns at the first failed
    write. *)
Fixpoint basic_sse_loop (n i : nat) (clock : nat → string)
    (writeOk : nat → bool) : list string :=
  match n with
  | 0 => []
  | S n' =>
      if writeOk i
      then sse_record (basic_event_payload i (clock i))
           :: basic_sse_loop n' (S i) clock writeOk
      else []
  end.

Definition basic_sse_server : (nat → string) → (nat → bool) → list string :=
  basic_sse_loop 10 1.

(** The number of writes that succeed before the first failure, among
    the [n] writes from [i] on. *)
Fixpoint writes_before_failure (n i : nat) (writeOk : nat → bool) : nat :=
  match n with
  | 0 => 0
  | S n' => if writeOk i then S (writes_before_failure n' (S i) writeOk) else 0
  end.

(** ** The text of the frames of [/events] *)

Definition dq : string := String (Ascii.ascii_of_nat 34) EmptyString.

(** The first record of a connection; the identifier is put between the
    quotes as it is, without escaping. *)
Definition client_id_payload (clientID : string) : string :=
  "{" +:+ dq +:+ "type" +:+ dq +:+ ":" +:+ dq +:+ "client_id" +:+ dq
  +:+ "," +:+ dq +:+ "id" +:+ dq +:+ ": " +:+ dq +:+ clientID +:+ dq +:+ "}".

(** The record written for a frame; [marshal] is [json.Marshal] on a
    [Request]. *)
Definition frame_text (marshal : Request.t → string) (f : frame) : string :=
  sse_record match f with
             | ClientIDFrame id => client_id_payload id
             | RequestFrame req => marshal req
             end.

(** ** The bidirectional client, [go/cmd/bidirectional_client] *)

Module ClientIDMessage.
Record t := mk { Type_ : string; ID : string }.
End ClientIDMessage.

(** [func processRequest(req Request) string], without its one second of
    sleep. *)
Definition processRequest (req : Request.t) : string :=
  if decide (Request.Method req = "analyze"%string) then
    "Analysis result for '" +:+ Request.Message req
    +:+ "': This message contains "
    +:+ pretty (String.length (Request.Message req))
    +:+ " characters and appears to be a " +:+ Request.Method req
    +:+ " request."
  else
    "Processed '" +:+ Request.Message req +:+ "' using method '"
    +:+ Request.Method req +:+ "'".

(** The response the client builds for a request. *)
Definition client_answer (request : Request.t) : Response.t :=
  Response.mk (Request.ID request) (processRequest request).

Section bidirectional_client.
(** [json.Unmarshal] into a [ClientIDMessage] and into a [Request];
    [None] when it returns an error. *)
Context (unmarshalClientID : string → option ClientIDMessage.t).
Context (unmarshalRequest : string → option Request.t).

(** The request branch of the loop body: what is posted to [/response],
    with the [Client-ID] header it is posted under. *)
Definition client_request (clientID data : string)
  : option (string * Response.t) :=
  match unmarshalRequest data with
  | Some request => Some (clientID, client_answer request)
  | None => None
  end.

(** The body of the [for scanner.Scan()] loop: the client identifier
    after the line and what the line made the client post. *)
Definition client_line (clientID line : string)
  : string * option (string * Response.t) :=
  if bool_decide (line = EmptyString) || HasPrefix line ":" then
    (clientID, None)
  else if HasPrefix line "data: " then
    let data := TrimPrefix line "data: " in
    match unmarshalClientID data with
    | Some m =>
        if decide (ClientIDMessage.Type_ m = "client_id"%string)
        then (ClientIDMessage.ID m, None)
        else (clientID, client_request clientID data)
    | None => (clientID, client_request clientID data)
    end
  else (clientID, None).

Fixpoint client_loop (clientID : string) (lines : list string)
  : list (string * Response.t) :=
  match lines with
  | [] => []
  | line :: rest =>
      let '(clientID', post) := client_line clientID line in
      option_list post ++ client_loop clientID' rest
  end.

(** The client on the body of its [/events] request: what it posts, and
    whether the scan ended with an error. *)
Definition bidirectional_client (body : string)
  : list (string * Response.t) * bool :=
  let '(lines, tooLong) := scan_lines body in
  (client_loop EmptyString lines, tooLong).

(** [data] is text that unmarshals to [request] and that the client does
    not take for a client-id message. *)
Definition decodes_as_request (data : string) (request : Request.t) : Prop :=
  unmarshalRequest data = Some request
  ∧ ∀ m, unmarshalClientID data = Some m →
         ClientIDMessage.Type_ m ≠ "client_id"%string.

End bidirectional_client.

(** A stand-in for the JSON of one request, for running the client. *)
Module Codec.
Definition marshal (req : Request.t) : string := Request.ID req.
Definition unmarshalClientID (data : string) : option ClientIDMessage.t :=
  if decide (data = client_id_payload "c1") then
    Some (ClientIDMessage.mk "client_id" "c1")
  else None.
Definition unmarshalRequest (data : string) : option Request.t :=
  if decide (data = "req_100"%string) then Some (newRequest 100 "one")
  else None.
End Codec.

(** Payloads for the wire: two short ones and one of 65536 bytes. *)
Module Wire.
Definition short : list string := ["Event 1 at 15:04:05"; "hello"]%string.
Fixpoint xs (n : nat) : string :=
  match n with
  | 0 => EmptyString
  | S n' => String (Ascii.ascii_of_nat 120) (xs n')
  end.
Definition long : string := xs (2 ^ 16).
Definition clock (i : nat) : string := "15:04:05".
Definition three_writes (i : nat) : bool := i <? 4.
End Wire.

(** * Proofs *)

(** ** Channel operations, case by case *)

Section chan_facts.
Context {A : Type}.
Implicit Types (c : Chan.t A) (x : A).

Lemma send_Done x c c' :
  Chan.send x c = Done c' ↔
  Chan.closed c = false ∧ length (Chan.buf c) < Chan.cap c
  ∧ c' = Chan.mk (Chan.buf c ++ [x]) (Chan.cap c) false.
Proof.
  unfold Chan.send. destruct (Chan.closed c).
  - split; [discriminate | intros [? _]; discriminate].
  - destruct (Nat.ltb_spec (length (Chan.buf c)) (Chan.cap c)).
    + split; [intros [= <-]; auto | intros (_ & _ & ->); reflexivity].
    + split; [discriminate | intros (_ & ? & _); lia].
Qed.

Lemma send_Blocks x c :
  Chan.send x c = Blocks ↔
  Chan.closed c = false ∧ Chan.cap c ≤ length (Chan.buf c).
Proof.
  unfold Chan.send. destruct (Chan.closed c).
  - split; [discriminate | intros [? _]; discriminate].
  - destruct (Nat.ltb_spec (length (Chan.buf c)) (Chan.cap c)).
    + split; [discriminate | intros [_ ?]; lia].
    + split; auto.
Qed.

Lemma unit_op_Done (f : Chan.t A → outcome (Chan.t A)) c u c' :
  unit_op f c = Done (u, c') ↔ f c = Done c'.
Proof.
  unfold unit_op. destruct u. destruct (f c) as [c0| |]; simpl.
  - split; [intros [= ->] | intros [= ->]]; reflexivity.
  - split; discriminate.
  - split; discriminate.
Qed.

End chan_facts.

Lemma on_requestChan_Done {R} ch
    (f : Chan.t Request.t → outcome (R * Chan.t Request.t)) s r s' :
  on_requestChan ch f s = Done (r, s') ↔
  ∃ c c', requestChans s !! ch = Some c ∧ f c = Done (r, c')
          ∧ s' = mkServer (clients s) (responses s)
                          (<[ch := c']> (requestChans s)) (responseChans s).
Proof.
  unfold on_requestChan. destruct (requestChans s !! ch) as [c|].
  - destruct (f c) as [[r0 c0]| |] eqn:Hf; simpl.
    + split.
      * intros [= <- <-]. eauto.
      * intros (c1 & c' & [= <-] & Hf' & ->).
        rewrite Hf in Hf'. by injection Hf' as <- <-.
    + split; [discriminate | intros (? & ? & [= <-] & ? & _); congruence].
    + split; [discriminate | intros (? & ? & [= <-] & ? & _); congruence].
  - split; [discriminate | intros (? & ? & ? & _); discriminate].
Qed.

Lemma on_responseChan_Done {R} ch
    (f : Chan.t Response.t → outcome (R * Chan.t Response.t)) s r s' :
  on_responseChan ch f s = Done (r, s') ↔
  ∃ c c', responseChans s !! ch = Some c ∧ f c = Done (r, c')
          ∧ s' = mkServer (clients s) (responses s)
                          (requestChans s) (<[ch := c']> (responseChans s)).
Proof.
  unfold on_responseChan. destruct (responseChans s !! ch) as [c|].
  - destruct (f c) as [[r0 c0]| |] eqn:Hf; simpl.
    + split.
      * intros [= <- <-]. eauto.
      * intros (c1 & c' & [= <-] & Hf' & ->).
        rewrite Hf in Hf'. by injection Hf' as <- <-.
    + split; [discriminate | intros (? & ? & [= <-] & ? & _); congruence].
    + split; [discriminate | intros (? & ? & [= <-] & ? & _); congruence].
  - split; [discriminate | intros (? & ? & ? & _); discriminate].
Qed.

(** ** The invariant is kept *)

Lemma wf_NewServer : wf NewServer.
Proof.
  split; simpl; intros *; rewrite ?lookup_empty; try discriminate; tauto.
Qed.

Lemma wf_lookup_lt_requests s c ch :
  wf s → clients s !! c = Some ch → ch < length (requestChans s).
Proof.
  intros Hwf Hc. destruct (wf_requests s Hwf c ch Hc) as (q & Hq & _).
  by eapply lookup_lt_Some.
Qed.

Lemma wf_lookup_lt_responses s c ch :
  wf s → responses s !! c = Some ch → ch < length (responseChans s).
Proof.
  intros Hwf Hc. destruct (wf_responses s Hwf c ch Hc) as (q & Hq & _).
  by eapply lookup_lt_Some.
Qed.

(** Storing back a channel whose [closed] flag and capacity are those of
    the channel it replaces keeps the invariant. *)
Lemma wf_store_request s ch q q' :
  wf s → requestChans s !! ch = Some q →
  Chan.closed q' = Chan.closed q → Chan.cap q' = Chan.cap q →
  wf (mkServer (clients s) (responses s)
               (<[ch := q']> (requestChans s)) (responseChans s)).
Proof.
  intros Hwf Hq Hcl Hcap. destruct Hwf as [H1 H2 H3 H4 H5].
  split; simpl; auto.
  intros c ch0 Hc. destruct (H1 c ch0 Hc) as (q0 & Hq0 & Ho & Hk).
  destruct (decide (ch0 = ch)) as [->|Hne].
  - exists q'. rewrite list_lookup_insert_eq by (by eapply lookup_lt_Some).
    rewrite Hq in Hq0. injection Hq0 as <-. rewrite Hcl, Hcap. auto.
  - exists q0. rewrite list_lookup_insert_ne by auto. auto.
Qed.

Lemma wf_store_response s ch q q' :
  wf s → responseChans s !! ch = Some q →
  Chan.closed q' = Chan.closed q → Chan.cap q' = Chan.cap q →
  wf (mkServer (clients s) (responses s)
               (requestChans s) (<[ch := q']> (responseChans s))).
Proof.
  intros Hwf Hq Hcl Hcap. destruct Hwf as [H1 H2 H3 H4 H5].
  split; simpl; auto.
  intros c ch0 Hc. destruct (H2 c ch0 Hc) as (q0 & Hq0 & Ho & Hk).
  destruct (decide (ch0 = ch)) as [->|Hne].
  - exists q'. rewrite list_lookup_insert_eq by (by eapply lookup_lt_Some).
    rewrite Hq in Hq0. injection Hq0 as <-. rewrite Hcl, Hcap. auto.
  - exists q0. rewrite list_lookup_insert_ne by auto. auto.
Qed.

Lemma wf_addClient clientID s : wf s → wf (addClient clientID s).2.
Proof.
  intros Hwf. pose proof (wf_lookup_lt_requests s) as Hlt1.
  pose proof (wf_lookup_lt_responses s) as Hlt2.
  destruct Hwf as [H1 H2 H3 H4 H5].
  assert (Hwf : wf s) by (by split).
  split; simpl.
  - intros c ch. rewrite lookup_insert. case_decide as Hc.
    + intros [= <-]. exists (Chan.make chanCap).
      rewrite list_lookup_middle by reflexivity. auto.
    + intros Hch. destruct (H1 c ch Hch) as (q & Hq & ?).
      exists q. rewrite lookup_app_l by (by eapply lookup_lt_Some). auto.
  - intros c ch. rewrite lookup_insert. case_decide as Hc.
    + intros [= <-]. exists (Chan.make chanCap).
      rewrite list_lookup_middle by reflexivity. auto.
    + intros Hch. destruct (H2 c ch Hch) as (q & Hq & ?).
      exists q. rewrite lookup_app_l by (by eapply lookup_lt_Some). auto.
  - intros c1 c2 ch. rewrite !lookup_insert.
    repeat case_decide; subst; auto.
    + intros [= <-] Hc2. apply Hlt1 in Hc2; auto. lia.
    + intros Hc1 [= <-]. apply Hlt1 in Hc1; auto. lia.
    + apply H3.
  - intros c1 c2 ch. rewrite !lookup_insert.
    repeat case_decide; subst; auto.
    + intros [= <-] Hc2. apply Hlt2 in Hc2; auto. lia.
    + intros Hc1 [= <-]. apply Hlt2 in Hc1; auto. lia.
    + apply H4.
  - intros c. rewrite !lookup_insert. case_decide; [split; discriminate|].
    apply H5.
Qed.

(** [removeClient] on a client that is in neither map changes nothing. *)
Lemma removeClient_absent clientID s :
  clients s !! clientID = None → responses s !! clientID = None →
  removeClient clientID s = Done s.
Proof. intros Hc Hr. unfold removeClient. rewrite Hc. simpl. by rewrite Hr. Qed.

Lemma removeClient_present clientID ch rh q r s :
  clients s !! clientID = Some ch → responses s !! clientID = Some rh →
  requestChans s !! ch = Some q → responseChans s !! rh = Some r →
  Chan.closed q = false → Chan.closed r = false →
  removeClient clientID s = Done (closedSession clientID ch rh q r s).
Proof.
  intros Hc Hr Hq Hrq Hoq Hor. unfold removeClient, closedSession.
  rewrite Hc. unfold on_requestChan. rewrite Hq.
  unfold unit_op, Chan.close. rewrite Hoq. simpl. rewrite Hr.
  unfold on_responseChan. simpl. rewrite Hrq, Hor. reflexivity.
Qed.

Lemma wf_closedSession clientID ch rh q r s :
  wf s →
  clients s !! clientID = Some ch → responses s !! clientID = Some rh →
  requestChans s !! ch = Some q → responseChans s !! rh = Some r →
  wf (closedSession clientID ch rh q r s).
Proof.
  intros [H1 H2 H3 H4 H5] Hc Hr Hq Hrq. split; simpl.
  - intros c ch0. rewrite lookup_delete. case_decide; [discriminate|].
    intros Hc0. destruct (H1 c ch0 Hc0) as (q0 & Hq0 & ?).
    exists q0. rewrite list_lookup_insert_ne; auto.
    intros <-. eauto.
  - intros c rh0. rewrite lookup_delete. case_decide; [discriminate|].
    intros Hc0. destruct (H2 c rh0 Hc0) as (q0 & Hq0 & ?).
    exists q0. rewrite list_lookup_insert_ne; auto.
    intros <-. eauto.
  - intros c1 c2 ch0. rewrite !lookup_delete.
    repeat case_decide; try discriminate. apply H3.
  - intros c1 c2 ch0. rewrite !lookup_delete.
    repeat case_decide; try discriminate. apply H4.
  - intros c. rewrite !lookup_delete. case_decide; [tauto | apply H5].
Qed.

(** Under the invariant [removeClient] never panics and never blocks. *)
Lemma removeClient_total clientID s :
  wf s → ∃ s', removeClient clientID s = Done s' ∧ wf s'
               ∧ clients s' !! clientID = None
               ∧ responses s' !! clientID = None.
Proof.
  intros Hwf. destruct (clients s !! clientID) as [ch|] eqn:Hc.
  - destruct (responses s !! clientID) as [rh|] eqn:Hr.
    2:{ apply (wf_same_keys s Hwf) in Hr. congruence. }
    destruct (wf_requests s Hwf _ _ Hc) as (q & Hq & Hoq & _).
    destruct (wf_responses s Hwf _ _ Hr) as (r & Hrq & Hor & _).
    exists (closedSession clientID ch rh q r s). split; [|split].
    + by apply removeClient_present.
    + by apply wf_closedSession.
    + simpl. by rewrite !lookup_delete_eq.
  - assert (Hr : responses s !! clientID = None)
      by (by apply (wf_same_keys s Hwf)).
    exists s. split; [by apply removeClient_absent | auto].
Qed.

(** ** [sendRequest], case by case *)

Lemma sendRequest_absent clientID req s :
  clients s !! clientID = None → sendRequest clientID req s = Done (None, s).
Proof. intros Hc. unfold sendRequest. by rewrite Hc. Qed.

Lemma sendRequest_room clientID req ch q s :
  clients s !! clientID = Some ch → requestChans s !! ch = Some q →
  Chan.closed q = false → length (Chan.buf q) < Chan.cap q →
  sendRequest clientID req s
  = Done (responses s !! clientID, pushed ch q req s).
Proof.
  intros Hc Hq Ho Hlen. unfold sendRequest, on_requestChan, unit_op.
  rewrite Hc, Hq.
  assert (Chan.send req q
          = Done (Chan.mk (Chan.buf q ++ [req]) (Chan.cap q) false)) as ->
    by (by apply send_Done).
  reflexivity.
Qed.

Lemma sendRequest_full clientID req ch q s :
  clients s !! clientID = Some ch → requestChans s !! ch = Some q →
  Chan.closed q = false → Chan.cap q ≤ length (Chan.buf q) →
  sendRequest clientID req s = Blocks.
Proof.
  intros Hc Hq Ho Hlen. unfold sendRequest, on_requestChan, unit_op.
  rewrite Hc, Hq.
  assert (Chan.send req q = Blocks) as -> by (by apply send_Blocks).
  reflexivity.
Qed.

Lemma sendRequest_Done clientID req s o s' :
  sendRequest clientID req s = Done (o, s') →
  (clients s !! clientID = None ∧ o = None ∧ s' = s)
  ∨ (∃ ch q, clients s !! clientID = Some ch
             ∧ requestChans s !! ch = Some q
             ∧ Chan.closed q = false ∧ length (Chan.buf q) < Chan.cap q
             ∧ o = responses s !! clientID ∧ s' = pushed ch q req s).
Proof.
  unfold sendRequest. destruct (clients s !! clientID) as [ch|] eqn:Hc.
  - destruct (on_requestChan ch (unit_op (Chan.send req)) s)
      as [[u s1]| |] eqn:Hon; simpl; try discriminate.
    intros [= <- <-]. right.
    apply on_requestChan_Done in Hon as (q & q' & Hq & Hsend & ->).
    apply unit_op_Done, send_Done in Hsend as (Ho & Hlen & ->).
    exists ch, q. auto 10.
  - intros [= <- <-]. auto.
Qed.

Lemma wf_pushed ch q req s :
  wf s → requestChans s !! ch = Some q → Chan.closed q = false →
  wf (pushed ch q req s).
Proof. intros Hwf Hq Ho. by eapply wf_store_request. Qed.

(** ** The [/response] handler, case by case *)

Lemma response_handler_absent response clientID s :
  responses s !! clientID = None →
  response_handler "POST" (Some response) clientID s
  = Done (mkReply StatusOK NoBody, s).
Proof. intros Hr. unfold response_handler. simpl. by rewrite Hr. Qed.

Lemma response_handler_room response clientID rh r s :
  responses s !! clientID = Some rh → responseChans s !! rh = Some r →
  Chan.closed r = false → length (Chan.buf r) < Chan.cap r →
  response_handler "POST" (Some response) clientID s
  = Done (mkReply StatusOK NoBody, answered rh r response s).
Proof.
  intros Hr Hrq Ho Hlen. unfold response_handler, on_responseChan, unit_op.
  simpl. rewrite Hr, Hrq.
  assert (Chan.send response r
          = Done (Chan.mk (Chan.buf r ++ [response]) (Chan.cap r) false)) as ->
    by (by apply send_Done).
  reflexivity.
Qed.

Lemma response_handler_full response clientID rh r s :
  responses s !! clientID = Some rh → responseChans s !! rh = Some r →
  Chan.closed r = false → Chan.cap r ≤ length (Chan.buf r) →
  response_handler "POST" (Some response) clientID s = Blocks.
Proof.
  intros Hr Hrq Ho Hlen. unfold response_handler, on_responseChan, unit_op.
  simpl. rewrite Hr, Hrq.
  assert (Chan.send response r = Blocks) as -> by (by apply send_Blocks).
  reflexivity.
Qed.

Lemma response_handler_Done response clientID s rep s' :
  response_handler "POST" (Some response) clientID s = Done (rep, s') →
  rep = mkReply StatusOK NoBody
  ∧ ((responses s !! clientID = None ∧ s' = s)
     ∨ (∃ rh r, responses s !! clientID = Some rh
                ∧ responseChans s !! rh = Some r
                ∧ Chan.closed r = false
                ∧ length (Chan.buf r) < Chan.cap r
                ∧ s' = answered rh r response s)).
Proof.
  unfold response_handler. simpl.
  destruct (responses s !! clientID) as [rh|] eqn:Hr.
  - destruct (on_responseChan rh (unit_op (Chan.send response)) s)
      as [[u s1]| |] eqn:Hon; simpl; try discriminate.
    intros [= <- <-]. split; [reflexivity|]. right.
    apply on_responseChan_Done in Hon as (r & r' & Hrq & Hsend & ->).
    apply unit_op_Done, send_Done in Hsend as (Ho & Hlen & ->).
    exists rh, r. auto 10.
  - simpl. intros [= <- <-]. auto.
Qed.

Lemma wf_answered rh r response s :
  wf s → responseChans s !! rh = Some r → Chan.closed r = false →
  wf (answered rh r response s).
Proof. intros Hwf Hq Ho. by eapply wf_store_response. Qed.

(** ** The stream loop and the wait of [/trigger], case by case *)

Lemma store_same_request ch q s :
  requestChans s !! ch = Some q →
  mkServer (clients s) (responses s) (<[ch := q]> (requestChans s))
           (responseChans s) = s.
Proof. intros Hq. rewrite list_insert_id by done. by destruct s. Qed.

Lemma store_same_response rh r s :
  responseChans s !! rh = Some r →
  mkServer (clients s) (responses s) (requestChans s)
           (<[rh := r]> (responseChans s)) = s.
Proof. intros Hq. rewrite list_insert_id by done. by destruct s. Qed.

Lemma events_loop_Done ch ctxDone pick s step s' :
  events_loop ch ctxDone pick s = Done (step, s') →
  ∃ q, requestChans s !! ch = Some q
       ∧ match step with
         | Wrote f => ∃ req rest, f = RequestFrame req
                                  ∧ Chan.buf q = req :: rest
                                  ∧ s' = popped ch q rest s
         | Return => s' = s
         end.
Proof.
  unfold events_loop. destruct (requestChans s !! ch) as [q|] eqn:Hq;
    [|discriminate].
  intros H. exists q. split; [reflexivity|].
  destruct (select2 (Chan.recv_ready q) ctxDone pick) as [[|]|];
    [| by injection H as <- <- | discriminate].
  unfold on_requestChan, Chan.recv in H. rewrite Hq in H.
  destruct (Chan.buf q) as [|req rest] eqn:Hb.
  - destruct (Chan.closed q); [|discriminate]. simpl in H.
    injection H as <- <-. by apply store_same_request.
  - simpl in H. injection H as <- <-. by exists req, rest.
Qed.

Lemma trigger_wait_Done rh timerFired pick s rep s' :
  trigger_wait rh timerFired pick s = Done (rep, s') →
  ∃ r, responseChans s !! rh = Some r
       ∧ ((timerFired = true ∧ s' = s
           ∧ rep = mkReply StatusRequestTimeout (Text "Request timeout"))
          ∨ (∃ x rest, Chan.buf r = x :: rest
                       ∧ rep = mkReply StatusOK (Json x)
                       ∧ s' = taken rh r rest s)
          ∨ (Chan.buf r = [] ∧ Chan.closed r = true ∧ s' = s
             ∧ rep = mkReply StatusOK (Json Response.zero))).
Proof.
  unfold trigger_wait. destruct (responseChans s !! rh) as [r|] eqn:Hr;
    [|discriminate].
  intros H. exists r. split; [reflexivity|].
  destruct (select2 (Chan.recv_ready r) timerFired pick) as [[|]|] eqn:Hsel;
    [| | discriminate].
  - right. unfold on_responseChan, Chan.recv in H. rewrite Hr in H.
    destruct (Chan.buf r) as [|x rest] eqn:Hb.
    + destruct (Chan.closed r); [|discriminate]. simpl in H.
      injection H as <- <-. right. by rewrite store_same_response.
    + simpl in H. injection H as <- <-. left. by exists x, rest.
  - left. injection H as <- <-.
    destruct (Chan.recv_ready r), timerFired; simpl in Hsel;
      try discriminate; auto.
Qed.

(** A response at the head of the queue is handed to the waiting handler
    as long as the timer has not fired. *)
Lemma trigger_wait_recv rh r x rest pick s :
  responseChans s !! rh = Some r → Chan.buf r = x :: rest →
  trigger_wait rh false pick s
  = Done (mkReply StatusOK (Json x), taken rh r rest s).
Proof.
  intros Hr Hb. unfold trigger_wait, on_responseChan, Chan.recv_ready, Chan.recv.
  rewrite Hr, Hb. reflexivity.
Qed.


Lemma trigger_wait_suspended rh r pick s :
  responseChans s !! rh = Some r → Chan.buf r = [] → Chan.closed r = false →
  trigger_wait rh false pick s = Blocks.
Proof.
  intros Hr Hb Ho. unfold trigger_wait, Chan.recv_ready.
  rewrite Hr, Hb, Ho. reflexivity.
Qed.

(** Once the timer fired the wait ends, whatever the queue holds. *)
Lemma trigger_wait_fired rh r pick s :
  responseChans s !! rh = Some r →
  ∃ rep s', trigger_wait rh true pick s = Done (rep, s').
Proof.
  intros Hr. unfold trigger_wait, on_responseChan, Chan.recv_ready, Chan.recv.
  rewrite Hr. destruct (Chan.buf r) as [|x rest] eqn:Hb.
  - destruct (Chan.closed r), pick; simpl; eauto.
  - destruct pick; simpl; eauto.
Qed.

(** ** Steps keep the invariant *)

Lemma bind_Done {A B} (m : outcome A) (k : A → outcome B) b :
  m ≫= k = Done b → ∃ a, m = Done a ∧ k a = Done b.
Proof. destruct m as [a| |]; [eauto | discriminate | discriminate]. Qed.

Lemma wf_exec o s x s' : wf s → exec o s = Done (x, s') → wf s'.
Proof.
  intros Hwf. destruct o as [c|c|c req|c resp|ch d p|rh f p]; simpl.
  - intros [= _ <-]. by apply wf_addClient.
  - intros H. apply bind_Done in H as (s1 & Hrm & [= _ <-]).
    destruct (removeClient_total c s Hwf) as (s2 & Hrm' & Hwf' & _).
    congruence.
  - intros H. apply bind_Done in H as ([o s1] & Hsend & [= _ <-]).
    apply sendRequest_Done in Hsend
      as [(_ & _ & ->)|(ch & q & _ & Hq & Ho & _ & _ & ->)]; [done|].
    by apply wf_pushed.
  - intros H. apply bind_Done in H as ([rep s1] & Hsub & [= _ <-]).
    apply response_handler_Done in Hsub
      as [_ [[_ ->]|(rh & r & _ & Hr & Ho & _ & ->)]]; [done|].
    by apply wf_answered.
  - intros H. apply bind_Done in H as ([step s1] & Hloop & Hres).
    assert (s' = s1) as -> by (destruct step; by injection Hres).
    apply events_loop_Done in Hloop as (q & Hq & Hstep).
    destruct step as [fr|]; [|by subst].
    destruct Hstep as (req & rest & _ & _ & ->).
    by eapply wf_store_request.
  - intros H. apply bind_Done in H as ([rep s1] & Hwait & [= _ <-]).
    apply trigger_wait_Done in Hwait
      as (r & Hr & [(_ & -> & _)|[(y & rest & _ & _ & ->)|(_ & _ & -> & _)]]);
      [done | | done].
    by eapply wf_store_response.
Qed.

Lemma wf_run tr : ∀ s xs s', wf s → run tr s = Done (xs, s') → wf s'.
Proof.
  induction tr as [|o tr IH]; simpl; intros s xs s' Hwf H.
  - by injection H as _ <-.
  - apply bind_Done in H as ([x s1] & Hexec & H).
    apply bind_Done in H as ([xs1 s2] & Hrun & [= _ <-]).
    eapply IH; [|exact Hrun]. by eapply wf_exec.
Qed.

(** ** Order of delivery on one session *)





Lemma session_kept_cons c o tr :
  session_kept c (o :: tr) = session_kept c [o] && session_kept c tr.
Proof. destruct o; simpl; try reflexivity; by rewrite andb_true_r. Qed.


Lemma wf_connected : wf Scenario.connected.
Proof. apply wf_addClient, wf_NewServer. Qed.


(** ** Channels are never freed *)

Lemma exec_responseChans_length o s x s' :
  wf s → exec o s = Done (x, s') →
  length (responseChans s) ≤ length (responseChans s').
Proof.
  intros Hwf. destruct o as [c|c|c req|c resp|ch d p|rh f p]; simpl.
  - intros [= _ <-]. simpl. rewrite length_app. lia.
  - intros H. apply bind_Done in H as (s1 & Hrm & [= _ <-]).
    destruct (clients s !! c) as [ch1|] eqn:Hc1;
      destruct (responses s !! c) as [rh1|] eqn:Hr1.
    + destruct (wf_requests s Hwf _ _ Hc1) as (q & Hq & Hoq & _).
      destruct (wf_responses s Hwf _ _ Hr1) as (r & Hrq & Hor & _).
      rewrite (removeClient_present c ch1 rh1 q r) in Hrm by done.
      injection Hrm as <-. simpl. by rewrite length_insert.
    + apply (wf_same_keys s Hwf) in Hr1. congruence.
    + apply (wf_same_keys s Hwf) in Hc1. congruence.
    + rewrite removeClient_absent in Hrm by done. by injection Hrm as <-.
  - intros H. apply bind_Done in H as ([o s1] & Hsend & [= _ <-]).
    apply sendRequest_Done in Hsend
      as [(_ & _ & ->)|(ch & q & _ & _ & _ & _ & _ & ->)]; done.
  - intros H. apply bind_Done in H as ([rep s1] & Hsub & [= _ <-]).
    apply response_handler_Done in Hsub
      as [_ [[_ ->]|(rh & r & _ & _ & _ & _ & ->)]]; [done|].
    simpl. by rewrite length_insert.
  - intros H. apply bind_Done in H as ([step s1] & Hloop & Hres).
    assert (s' = s1) as -> by (destruct step; by injection Hres).
    apply events_loop_Done in Hloop as (q & Hq & Hstep).
    destruct step as [fr|]; [|by subst].
    by destruct Hstep as (req & rest & _ & _ & ->).
  - intros H. apply bind_Done in H as ([rep s1] & Hwait & [= _ <-]).
    apply trigger_wait_Done in Hwait
      as (r & Hr & [(_ & -> & _)|[(y & rest & _ & _ & ->)|(_ & _ & -> & _)]]);
      [done | | done].
    simpl. by rewrite length_insert.
Qed.

Lemma run_responseChans_length tr :
  ∀ s xs s', wf s → run tr s = Done (xs, s') →
             length (responseChans s) ≤ length (responseChans s').
Proof.
  induction tr as [|o tr IH]; simpl; intros s xs s' Hwf H.
  - by injection H as _ <-.
  - apply bind_Done in H as ([x s1] & Hexec & H).
    apply bind_Done in H as ([xs1 s2] & Hrun & [= _ <-]).
    etrans; [by eapply exec_responseChans_length|].
    eapply IH; [|exact Hrun]. by eapply wf_exec.
Qed.

(** ** [trigger_start], case by case *)

Lemma trigger_start_params clientID message now s :
  clientID ≠ ""%string → message ≠ ""%string →
  trigger_start clientID message now s
  = trigger_dispatch clientID (newRequest now message) s.
Proof.
  intros Hc Hm. unfold trigger_start. rewrite decide_False; [done|].
  by intros [?|?].
Qed.

Lemma trigger_start_Waiting clientID message now s rh s' :
  trigger_start clientID message now s = Done (Waiting rh, s') →
  ∃ ch q, clients s !! clientID = Some ch
          ∧ responses s !! clientID = Some rh
          ∧ requestChans s !! ch = Some q
          ∧ Chan.closed q = false ∧ length (Chan.buf q) < Chan.cap q
          ∧ s' = pushed ch q (newRequest now message) s.
Proof.
  unfold trigger_start, trigger_dispatch. case_decide as Hp; [discriminate|].
  intros H. apply bind_Done in H as ([o s1] & Hsend & H).
  destruct o as [rh'|]; [|discriminate]. injection H as <- <-.
  apply sendRequest_Done in Hsend
    as [(_ & [=] & _)|(ch & q & Hc & Hq & Ho & Hlen & Hrh & ->)].
  exists ch, q. auto 10.
Qed.

Lemma trigger_start_room clientID message now ch rh q s :
  clientID ≠ ""%string → message ≠ ""%string →
  clients s !! clientID = Some ch → responses s !! clientID = Some rh →
  requestChans s !! ch = Some q →
  Chan.closed q = false → length (Chan.buf q) < Chan.cap q →
  trigger_start clientID message now s
  = Done (Waiting rh, pushed ch q (newRequest now message) s).
Proof.
  intros Hc Hm Hch Hrh Hq Ho Hlen. rewrite trigger_start_params by done.
  unfold trigger_dispatch.
  rewrite (sendRequest_room _ _ ch q) by done. simpl. by rewrite Hrh.
Qed.

Lemma trigger_start_full clientID message now ch q s :
  clientID ≠ ""%string → message ≠ ""%string →
  clients s !! clientID = Some ch → requestChans s !! ch = Some q →
  Chan.closed q = false → Chan.cap q ≤ length (Chan.buf q) →
  trigger_start clientID message now s = Blocks.
Proof.
  intros Hc Hm Hch Hq Ho Hlen. rewrite trigger_start_params by done.
  unfold trigger_dispatch. by rewrite (sendRequest_full _ _ ch q).
Qed.

(** ** The response queue of a session *)

Lemma responseBuf_lookup rh r s :
  responseChans s !! rh = Some r → responseBuf rh s = Chan.buf r.
Proof. intros Hr. unfold responseBuf. by rewrite Hr. Qed.







(** C2 (amended).  The enqueue of a dispatch is a blocking channel send.
    For a registered client it goes through at once while fewer than 10
    requests are queued on the push channel, and it is suspended, with no
    error returned, while 10 are queued.  Once the request is enqueued,
    the wait for the response ends when the 30 second timer has fired,
    in whatever state the server has reached by then. *)
Theorem dispatch_send_blocks_when_full clientID message now ch q s :
  wf s → clientID ≠ ""%string → message ≠ ""%string →
  clients s !! clientID = Some ch → requestChans s !! ch = Some q →
  if decide (length (Chan.buf q) < chanCap) then
    ∃ rh s1, trigger_start clientID message now s = Done (Waiting rh, s1)
             ∧ ∀ tr xs s2 pick, run tr s1 = Done (xs, s2) →
                 ∃ rep s3, trigger_wait rh true pick s2 = Done (rep, s3)
  else trigger_start clientID message now s = Blocks.
Proof.
  intros Hwf Hcid Hmsg Hc Hq.
  destruct (wf_requests s Hwf _ _ Hc) as (q' & Hq' & Ho & Hcap).
  rewrite Hq in Hq'. injection Hq' as <-.
  case_decide as Hlen.
  - destruct (responses s !! clientID) as [rh|] eqn:Hrh.
    2:{ apply (wf_same_keys s Hwf) in Hrh. congruence. }
    exists rh, (pushed ch q (newRequest now message) s).
    split; [apply trigger_start_room; try done; by rewrite Hcap|].
    intros tr xs s2 pick Hrun.
    assert (Hwf1 : wf (pushed ch q (newRequest now message) s))
      by (by apply wf_pushed).
    pose proof (run_responseChans_length tr _ _ _ Hwf1 Hrun) as Hmono.
    pose proof (wf_lookup_lt_responses _ _ _ Hwf1 Hrh) as Hlt.
    destruct (lookup_lt_is_Some_2 (responseChans s2) rh) as [r Hr]; [lia|].
    by eapply trigger_wait_fired.
  - eapply trigger_start_full; try done. rewrite Hcap. lia.
Qed.

Lemma full_reached :
  ∃ xs, run (replicate 10 (Dispatch "c1" Full.req)) Scenario.connected
        = Done (xs, Full.full).
Proof. eexists. reflexivity. Qed.

Lemma wf_full : wf Full.full.
Proof.
  destruct full_reached as [xs Hrun].
  eapply wf_run; [apply wf_connected | exact Hrun].
Qed.

Lemma dispatch_send_blocks_when_full_witness :
  trigger_start "c1" "hello" 8 Full.full = Blocks.
Proof.
  exact (dispatch_send_blocks_when_full "c1" "hello" 8 0
           (Chan.mk (replicate 10 Full.req) chanCap false) Full.full
           wf_full ltac:(discriminate) ltac:(discriminate) eq_refl eq_refl).
Defined.

(** C2, as stated, fails.  Ten requests are queued on the push channel of
    ["c1"] and the stream loop takes none: the next dispatch gets no
    backpressure error, its send is suspended, and no timer runs yet, as
    the handler reaches its [select] only after the send. *)
Lemma dispatch_to_full_channel_is_suspended :
  length (requestBuf 0 Full.full) = chanCap
  ∧ sendRequest "c1" (newRequest 8 "hello") Full.full = Blocks
  ∧ trigger_start "c1" "hello" 8 Full.full = Blocks.
Proof. repeat split. Qed.




(** C4 (amended).  [addClient] for an identifier that has a session
    installs two fresh, open, empty channels of capacity 10 under the
    identifier and leaves the channels of the previous session as they
    were: they stay open, and a dispatch waiting on the previous response
    queue stays suspended.  The registry holds one channel pair per
    identifier. *)
Theorem reconnect_replaces_without_closing clientID ch rh s :
  wf s → clients s !! clientID = Some ch → responses s !! clientID = Some rh →
  ∃ ch' rh' s',
    addClient clientID s = (ch', s')
    ∧ ch' ≠ ch ∧ rh' ≠ rh
    ∧ clients s' !! clientID = Some ch' ∧ responses s' !! clientID = Some rh'
    ∧ requestChans s' !! ch' = Some (Chan.make chanCap)
    ∧ responseChans s' !! rh' = Some (Chan.make chanCap)
    ∧ (∃ q, requestChans s' !! ch = Some q
            ∧ requestChans s !! ch = Some q ∧ Chan.closed q = false)
    ∧ (∃ r, responseChans s' !! rh = Some r
            ∧ responseChans s !! rh = Some r ∧ Chan.closed r = false)
    ∧ (∀ pick, responseBuf rh s = [] → trigger_wait rh false pick s' = Blocks)
    ∧ wf s'.
Proof.
  intros Hwf Hc Hr.
  pose proof (wf_lookup_lt_requests s _ _ Hwf Hc) as Hlt1.
  pose proof (wf_lookup_lt_responses s _ _ Hwf Hr) as Hlt2.
  destruct (wf_requests s Hwf _ _ Hc) as (q & Hq & Hoq & _).
  destruct (wf_responses s Hwf _ _ Hr) as (r & Hrq & Hor & _).
  exists (length (requestChans s)), (length (responseChans s)),
    (addClient clientID s).2.
  split; [reflexivity|]. split; [lia|]. split; [lia|]. simpl.
  split; [by rewrite lookup_insert_eq|].
  split; [by rewrite lookup_insert_eq|].
  split; [by rewrite list_lookup_middle|].
  split; [by rewrite list_lookup_middle|].
  split; [exists q; by rewrite lookup_app_l|].
  split; [exists r; by rewrite lookup_app_l|].
  split; [|by apply wf_addClient].
  intros pick Hb. rewrite (responseBuf_lookup _ _ _ Hrq) in Hb.
  eapply trigger_wait_suspended; [|exact Hb|exact Hor].
  simpl. by rewrite lookup_app_l.
Qed.

Lemma wf_reconnect_s1 : wf Reconnect.s1.
Proof. by apply wf_pushed; [apply wf_connected| |]. Qed.

Lemma reconnect_replaces_without_closing_witness :
  ∃ ch' rh' s',
    addClient "c1" Reconnect.s1 = (ch', s')
    ∧ ch' ≠ 0 ∧ rh' ≠ 0
    ∧ clients s' !! "c1" = Some ch' ∧ responses s' !! "c1" = Some rh'
    ∧ requestChans s' !! ch' = Some (Chan.make chanCap)
    ∧ responseChans s' !! rh' = Some (Chan.make chanCap)
    ∧ (∃ q, requestChans s' !! 0 = Some q
            ∧ requestChans Reconnect.s1 !! 0 = Some q ∧ Chan.closed q = false)
    ∧ (∃ r, responseChans s' !! 0 = Some r
            ∧ responseChans Reconnect.s1 !! 0 = Some r ∧ Chan.closed r = false)
    ∧ (∀ pick, responseBuf 0 Reconnect.s1 = [] →
               trigger_wait 0 false pick s' = Blocks)
    ∧ wf s'.
Proof.
  exact (reconnect_replaces_without_closing "c1" 0 0 Reconnect.s1
           wf_reconnect_s1 eq_refl eq_refl).
Defined.

(** C4, as stated, fails.  ["c1"] is connected and a dispatch waits for
    its response; ["c1"] connects again.  The push channel of the first
    session is not closed and still holds the request, and the waiting
    dispatch is not failed: it stays suspended and ends in the ordinary
    timeout. *)
Lemma reconnect_leaves_old_session_open :
  trigger_start "c1" "hello" 2 Scenario.connected
  = Done (Waiting 0, Reconnect.s1)
  ∧ addClient "c1" Reconnect.s1 = (1, Reconnect.s2)
  ∧ requestChans Reconnect.s2 !! 0
    = Some (Chan.mk [newRequest 2 "hello"] chanCap false)
  ∧ responseChans Reconnect.s2 !! 0 = Some (Chan.mk [] chanCap false)
  ∧ trigger_wait 0 false RecvCase Reconnect.s2 = Blocks
  ∧ trigger_wait 0 true RecvCase Reconnect.s2
    = Done (mkReply StatusRequestTimeout (Text "Request timeout"),
            Reconnect.s2).
Proof. repeat split. Qed.

(** C5 (amended).  A well-formed submission is acknowledged with 200 in
    every case in which the handler returns.  For a client without a
    session the response is dropped, the state is unchanged and the answer
    is still 200; for a client with a session the response is appended to
    its queue while fewer than 10 are queued, and the handler is suspended
    while 10 are queued.  No case looks at pending requests. *)
Theorem submit_acknowledged_without_session clientID response s :
  wf s →
  match responses s !! clientID with
  | None =>
      response_handler "POST" (Some response) clientID s
      = Done (mkReply StatusOK NoBody, s)
  | Some rh =>
      ∃ r, responseChans s !! rh = Some r
           ∧ if decide (length (Chan.buf r) < chanCap) then
               response_handler "POST" (Some response) clientID s
               = Done (mkReply StatusOK NoBody, answered rh r response s)
             else
               response_handler "POST" (Some response) clientID s = Blocks
  end.
Proof.
  intros Hwf. destruct (responses s !! clientID) as [rh|] eqn:Hrh.
  - destruct (wf_responses s Hwf _ _ Hrh) as (r & Hr & Ho & Hcap).
    exists r. split; [done|]. case_decide as Hlen.
    + apply response_handler_room; try done. by rewrite Hcap.
    + eapply response_handler_full; try done. rewrite Hcap. lia.
  - by apply response_handler_absent.
Qed.

Lemma submit_acknowledged_without_session_witness :
  response_handler "POST" (Some Unknown.response) "c2" Scenario.connected
  = Done (mkReply StatusOK NoBody, Scenario.connected).
Proof.
  exact (submit_acknowledged_without_session "c2" Unknown.response
           Scenario.connected wf_connected).
Defined.

(** C5, as stated, fails.  Only ["c1"] is registered; a submission for
    ["c2"] does not fail: the handler answers 200, the success status. *)
Lemma submit_for_unknown_client_succeeds :
  responses Scenario.connected !! "c2" = None
  ∧ ∃ rep, response_handler "POST" (Some Unknown.response) "c2"
             Scenario.connected
           = Done (rep, Scenario.connected)
           ∧ status rep = StatusOK
           ∧ status rep ≠ StatusNotFound.
Proof.
  split; [reflexivity|]. eexists. split; [reflexivity|].
  split; [reflexivity | discriminate].
Qed.



(** ** Request identifiers *)

(** Identifiers made in different seconds differ. *)
Lemma requestID_inj now1 now2 : requestID now1 = requestID now2 → now1 = now2.
Proof.
  unfold requestID. intros H. injection H as H.
  by apply (inj pretty).
Qed.

(** C8 at the failing input.  Two [/trigger] calls for ["c1"] arrive
    within the second 1700000000.  Both enqueue their request and both
    are waiting, and the two requests carry the same identifier
    [req_1700000000]. *)
Theorem same_second_same_identifier :
  trigger_start "c1" "first" Collide.now Scenario.connected
  = Done (Waiting 0, Collide.s1)
  ∧ trigger_start "c1" "second" Collide.now Collide.s1
    = Done (Waiting 0, Collide.s2)
  ∧ trigger_wait 0 false RecvCase Collide.s2 = Blocks
  ∧ Request.ID <$> requestBuf 0 Collide.s2
    = ["req_1700000000"; "req_1700000000"]%string
  ∧ Request.Message <$> requestBuf 0 Collide.s2
    = ["first"; "second"]%string.
Proof. repeat split. Qed.

(** C9.  [removeClient] is idempotent.  In every state the server can be
    in, the call returns; a second call right after it returns the state
    the first call left; and for a client without a session the first
    call already leaves the state as it was.  No call closes a closed
    channel, which would panic. *)
Theorem removeClient_idempotent clientID s :
  wf s →
  ∃ s1, removeClient clientID s = Done s1
        ∧ removeClient clientID s1 = Done s1
        ∧ (clients s !! clientID = None → s1 = s).
Proof.
  intros Hwf.
  destruct (removeClient_total clientID s Hwf) as (s1 & Hrm & _ & Hc1 & Hr1).
  exists s1. split; [exact Hrm|]. split; [by apply removeClient_absent|].
  intros Hc.
  assert (Hr : responses s !! clientID = None)
    by (by apply (wf_same_keys s Hwf)).
  rewrite removeClient_absent in Hrm by done. by injection Hrm as <-.
Qed.

Lemma removeClient_idempotent_witness :
  ∃ s1, removeClient "c1" Scenario.connected = Done s1
        ∧ removeClient "c1" s1 = Done s1
        ∧ (clients Scenario.connected !! "c1" = None → s1 = Scenario.connected).
Proof. exact (removeClient_idempotent "c1" Scenario.connected wf_connected). Defined.

(** Every state the server reaches from [NewServer] satisfies the
    invariant. *)
Lemma wf_reachable tr xs s : run tr NewServer = Done (xs, s) → wf s.
Proof. apply wf_run, wf_NewServer. Qed.



(** * Further properties of the server *)

(** ** No step panics *)

Lemma send_open_no_panic {A} (x : A) (q : Chan.t A) :
  Chan.closed q = false → Chan.send x q ≠ Panics.
Proof.
  intros Ho. unfold Chan.send. rewrite Ho.
  by destruct (length (Chan.buf q) <? Chan.cap q).
Qed.

Lemma recv_no_panic {A} (q : Chan.t A) : Chan.recv q ≠ Panics.
Proof.
  unfold Chan.recv. destruct (Chan.buf q); [|done].
  by destruct (Chan.closed q).
Qed.

(** X1.  From a state that satisfies the registry invariant no handler
    step panics: no send goes to a closed channel and no channel is
    closed twice.  A step completes or is suspended. *)
Theorem exec_never_panics o s :
  wf s → op_allocated o s → exec o s ≠ Panics.
Proof.
  intros Hwf Halloc.
  destruct o as [c|c|c req|c resp|ch d p|rh f p]; simpl in *.
  - done.
  - destruct (removeClient_total c s Hwf) as (s1 & -> & _). done.
  - unfold sendRequest. destruct (clients s !! c) as [ch|] eqn:Hc; [|done].
    destruct (wf_requests s Hwf _ _ Hc) as (q & Hq & Ho & _).
    unfold on_requestChan, unit_op. rewrite Hq.
    pose proof (send_open_no_panic req q Ho) as Hs.
    by destruct (Chan.send req q).
  - unfold response_handler. simpl.
    destruct (responses s !! c) as [rh|] eqn:Hr; [|done].
    destruct (wf_responses s Hwf _ _ Hr) as (q & Hq & Ho & _).
    unfold on_responseChan, unit_op. rewrite Hq.
    pose proof (send_open_no_panic resp q Ho) as Hs.
    by destruct (Chan.send resp q).
  - destruct (lookup_lt_is_Some_2 (requestChans s) ch Halloc) as [q Hq].
    unfold events_loop, on_requestChan. rewrite Hq.
    destruct (select2 (Chan.recv_ready q) d p) as [[|]|]; [|done|done].
    pose proof (recv_no_panic q) as Hr.
    destruct (Chan.recv q) as [[[x|] q']| |]; done.
  - destruct (lookup_lt_is_Some_2 (responseChans s) rh Halloc) as [q Hq].
    unfold trigger_wait, on_responseChan. rewrite Hq.
    destruct (select2 (Chan.recv_ready q) f p) as [[|]|]; [|done|done].
    pose proof (recv_no_panic q) as Hr.
    destruct (Chan.recv q) as [[[x|] q']| |]; done.
Qed.

Lemma exec_never_panics_witness :
  exec (Disconnect "c1") Scenario.connected ≠ Panics.
Proof.
  exact (exec_never_panics (Disconnect "c1") Scenario.connected
           wf_connected I).
Defined.

(** ** Queues stay within their capacity *)

Lemma bounded_NewServer : bounded NewServer.
Proof. split; constructor. Qed.

Lemma within_cap_lookup_request s ch q :
  bounded s → requestChans s !! ch = Some q → within_cap q.
Proof. intros [Hb _] Hq. by eapply (Forall_lookup_1 _ _ _ _ Hb). Qed.

Lemma within_cap_lookup_response s rh r :
  bounded s → responseChans s !! rh = Some r → within_cap r.
Proof. intros [_ Hb] Hr. by eapply (Forall_lookup_1 _ _ _ _ Hb). Qed.

Lemma bounded_exec o s x s' :
  wf s → bounded s → exec o s = Done (x, s') → bounded s'.
Proof.
  intros Hwf Hb. pose proof Hb as [Hb1 Hb2].
  destruct o as [c|c|c req|c resp|ch d p|rh f p]; simpl.
  - intros [= _ <-]. split; simpl; apply Forall_app; split; try done;
      by repeat constructor.
  - intros H. apply bind_Done in H as (s1 & Hrm & [= _ <-]).
    destruct (clients s !! c) as [ch1|] eqn:Hc1;
      destruct (responses s !! c) as [rh1|] eqn:Hr1.
    + destruct (wf_requests s Hwf _ _ Hc1) as (q & Hq & Hoq & _).
      destruct (wf_responses s Hwf _ _ Hr1) as (r & Hrq & Hor & _).
      rewrite (removeClient_present c ch1 rh1 q r) in Hrm by done.
      injection Hrm as <-.
      pose proof (within_cap_lookup_request _ _ _ Hb Hq).
      pose proof (within_cap_lookup_response _ _ _ Hb Hrq).
      split; simpl; by apply Forall_insert.
    + apply (wf_same_keys s Hwf) in Hr1. congruence.
    + apply (wf_same_keys s Hwf) in Hc1. congruence.
    + rewrite removeClient_absent in Hrm by done. by injection Hrm as <-.
  - intros H. apply bind_Done in H as ([o s1] & Hsend & [= _ <-]).
    apply sendRequest_Done in Hsend
      as [(_ & _ & ->)|(ch & q & _ & Hq & _ & Hlen & _ & ->)]; [done|].
    destruct (within_cap_lookup_request _ _ _ Hb Hq) as [_ Hcap].
    split; simpl; [|done]. apply Forall_insert; [done|].
    split; simpl; [|done]. rewrite length_app. simpl. lia.
  - intros H. apply bind_Done in H as ([rep s1] & Hsub & [= _ <-]).
    apply response_handler_Done in Hsub
      as [_ [[_ ->]|(rh & r & _ & Hr & _ & Hlen & ->)]]; [done|].
    destruct (within_cap_lookup_response _ _ _ Hb Hr) as [_ Hcap].
    split; simpl; [done|]. apply Forall_insert; [done|].
    split; simpl; [|done]. rewrite length_app. simpl. lia.
  - intros H. apply bind_Done in H as ([step s1] & Hloop & Hres).
    assert (s' = s1) as -> by (destruct step; by injection Hres).
    apply events_loop_Done in Hloop as (q & Hq & Hstep).
    destruct step as [fr|]; [|by subst].
    destruct Hstep as (req & rest & _ & Hbuf & ->).
    destruct (within_cap_lookup_request _ _ _ Hb Hq) as [Hlen Hcap].
    split; simpl; [|done]. apply Forall_insert; [done|].
    split; simpl; [|done]. rewrite Hbuf in Hlen. simpl in Hlen. lia.
  - intros H. apply bind_Done in H as ([rep s1] & Hwait & [= _ <-]).
    apply trigger_wait_Done in Hwait
      as (r & Hr & [(_ & -> & _)|[(y & rest & Hbuf & _ & ->)|(_ & _ & -> & _)]]);
      [done | | done].
    destruct (within_cap_lookup_response _ _ _ Hb Hr) as [Hlen Hcap].
    split; simpl; [done|]. apply Forall_insert; [done|].
    split; simpl; [|done]. rewrite Hbuf in Hlen. simpl in Hlen. lia.
Qed.

Lemma bounded_run tr :
  ∀ s xs s', wf s → bounded s → run tr s = Done (xs, s') → bounded s'.
Proof.
  induction tr as [|o tr IH]; simpl; intros s xs s' Hwf Hb H.
  - by injection H as _ <-.
  - apply bind_Done in H as ([x s1] & Hexec & H).
    apply bind_Done in H as ([xs1 s2] & Hrun & [= _ <-]).
    eapply IH; [| |exact Hrun]; [by eapply wf_exec | by eapply bounded_exec].
Qed.

(** X2.  In every state the server reaches from [NewServer], every
    channel ever made, registered or not, has capacity 10 and holds at
    most 10 items: no more than 10 requests wait for the stream of a
    client and no more than 10 responses wait for its dispatches. *)
Theorem queues_hold_at_most_ten tr xs s :
  run tr NewServer = Done (xs, s) →
  (∀ ch, length (requestBuf ch s) ≤ 10)
  ∧ (∀ rh, length (responseBuf rh s) ≤ 10)
  ∧ (∀ ch q, requestChans s !! ch = Some q → Chan.cap q = 10)
  ∧ (∀ rh r, responseChans s !! rh = Some r → Chan.cap r = 10).
Proof.
  intros Hrun.
  pose proof (bounded_run tr _ _ _ wf_NewServer bounded_NewServer Hrun) as Hb.
  split; [|split; [|split]].
  - intros ch. unfold requestBuf.
    destruct (requestChans s !! ch) as [q|] eqn:Hq; simpl; [|lia].
    destruct (within_cap_lookup_request _ _ _ Hb Hq) as [Hlen Hcap].
    rewrite Hcap in Hlen. exact Hlen.
  - intros rh. unfold responseBuf.
    destruct (responseChans s !! rh) as [r|] eqn:Hr; simpl; [|lia].
    destruct (within_cap_lookup_response _ _ _ Hb Hr) as [Hlen Hcap].
    rewrite Hcap in Hlen. exact Hlen.
  - intros ch q Hq. by destruct (within_cap_lookup_request _ _ _ Hb Hq).
  - intros rh r Hr. by destruct (within_cap_lookup_response _ _ _ Hb Hr).
Qed.

Lemma queues_hold_at_most_ten_witness :
  (∀ ch, length (requestBuf ch Full.full) ≤ 10)
  ∧ (∀ rh, length (responseBuf rh Full.full) ≤ 10)
  ∧ (∀ ch q, requestChans Full.full !! ch = Some q → Chan.cap q = 10)
  ∧ (∀ rh r, responseChans Full.full !! rh = Some r → Chan.cap r = 10).
Proof.
  exact (queues_hold_at_most_ten
           (Connect "c1" :: replicate 10 (Dispatch "c1" Full.req))
           (Silent :: replicate 10 Silent) Full.full eq_refl).
Defined.

(** ** A session from connect to disconnect *)


Lemma addClient_fresh_session clientID s :
  wf s →
  clients (addClient clientID s).2 !! clientID = Some (length (requestChans s))
  ∧ responses (addClient clientID s).2 !! clientID
    = Some (length (responseChans s))
  ∧ requestChans (addClient clientID s).2 !! length (requestChans s)
    = Some (Chan.make chanCap)
  ∧ responseChans (addClient clientID s).2 !! length (responseChans s)
    = Some (Chan.make chanCap).
Proof.
  intros Hwf. simpl. rewrite !lookup_insert_eq.
  by rewrite !list_lookup_middle.
Qed.



(** ** A client that disconnects while a dispatch waits *)

Lemma trigger_wait_closed rh r pick s :
  responseChans s !! rh = Some r → Chan.buf r = [] → Chan.closed r = true →
  trigger_wait rh false pick s
  = Done (mkReply StatusOK (Json Response.zero), s).
Proof.
  intros Hr Hb Hc.
  unfold trigger_wait, on_responseChan, Chan.recv_ready, Chan.recv.
  rewrite Hr, Hb, Hc. simpl. by rewrite store_same_response.
Qed.

(** X4.  When the session of a client is removed while a dispatch waits
    on its empty response queue, the dispatch does not fail: the receive
    on the closed channel yields the zero [Response], and the handler
    answers 200 with empty identifier and empty result without waiting
    for its timer. *)
Theorem disconnect_answers_waiting_dispatch clientID message now rh s s1 :
  wf s →
  trigger_start clientID message now s = Done (Waiting rh, s1) →
  responseBuf rh s1 = [] →
  ∃ s2, removeClient clientID s1 = Done s2
        ∧ ∀ pick, trigger_wait rh false pick s2
                  = Done (mkReply StatusOK (Json Response.zero), s2).
Proof.
  intros Hwf Hstart Hb.
  apply trigger_start_Waiting in Hstart
    as (ch & q & Hc & Hrh & Hq & Ho & Hlen & ->).
  assert (Hwf1 : wf (pushed ch q (newRequest now message) s))
    by (by apply wf_pushed).
  destruct (wf_requests _ Hwf1 _ _ Hc) as (q1 & Hq1 & Hoq1 & _).
  destruct (wf_responses _ Hwf1 _ _ Hrh) as (r & Hr & Hor & _).
  rewrite (responseBuf_lookup _ _ _ Hr) in Hb.
  eexists. split; [by eapply removeClient_present|].
  assert (Hr2 : responseChans (closedSession clientID ch rh q1 r
                                 (pushed ch q (newRequest now message) s))
                !! rh = Some (Chan.mk (Chan.buf r) (Chan.cap r) true)).
  { simpl. rewrite list_lookup_insert_eq; [done|]. by eapply lookup_lt_Some. }
  intros pick. by eapply trigger_wait_closed.
Qed.

Lemma disconnect_answers_waiting_dispatch_witness :
  ∃ s2, removeClient "c1" Late.s1 = Done s2
        ∧ trigger_wait 0 false RecvCase s2
          = Done (mkReply StatusOK (Json (Response.mk "" "")), s2).
Proof.
  destruct (disconnect_answers_waiting_dispatch "c1" "hello" 2 0
              Scenario.connected Late.s1 wf_connected eq_refl eq_refl)
    as (s2 & Hrm & Hwait).
  exists s2. split; [exact Hrm | apply Hwait].
Defined.

(** ** The stream loop on a closed channel *)

Lemma events_loop_head ch q req rest pick s :
  requestChans s !! ch = Some q → Chan.buf q = req :: rest →
  events_loop ch false pick s
  = Done (Wrote (RequestFrame req), popped ch q rest s).
Proof.
  intros Hq Hb. unfold events_loop, on_requestChan, Chan.recv_ready, Chan.recv.
  rewrite Hq, Hb. reflexivity.
Qed.

Lemma events_loop_closed_empty ch q pick s :
  requestChans s !! ch = Some q → Chan.buf q = [] → Chan.closed q = true →
  events_loop ch false pick s = Done (Return, s).
Proof.
  intros Hq Hb Hc. unfold events_loop, on_requestChan, Chan.recv_ready, Chan.recv.
  rewrite Hq, Hb, Hc. simpl. by rewrite store_same_request.
Qed.

(** X5.  Once its channel is closed, the stream loop of a handler whose
    request context is still alive is never suspended: it writes the
    requests that are still buffered, in queue order, one per iteration,
    and returns in the iteration after the last one. *)
Theorem closed_stream_drains_then_returns reqs :
  ∀ ch q pick s,
    requestChans s !! ch = Some q → Chan.buf q = reqs →
    Chan.closed q = true →
    ∃ s', run (replicate (S (length reqs)) (Stream ch false pick)) s
          = Done ((Written ch ∘ RequestFrame <$> reqs) ++ [StreamEnd ch], s')
          ∧ requestBuf ch s' = [].
Proof.
  induction reqs as [|req rest IH]; intros ch q pick s Hq Hb Hc.
  - exists s. simpl. rewrite (events_loop_closed_empty ch q) by done.
    simpl. split; [done|]. unfold requestBuf. by rewrite Hq.
  - assert (Hq' : requestChans (popped ch q rest s) !! ch
                  = Some (Chan.mk rest (Chan.cap q) (Chan.closed q))).
    { simpl. rewrite list_lookup_insert_eq; [done|]. by eapply lookup_lt_Some. }
    destruct (IH ch _ pick _ Hq' eq_refl Hc) as (s' & Hrun & Hempty).
    exists s'. split; [|exact Hempty].
    change (replicate (S (length (req :: rest))) (Stream ch false pick))
      with (Stream ch false pick
            :: replicate (S (length rest)) (Stream ch false pick)).
    cbn [run exec]. rewrite (events_loop_head ch q req rest) by done.
    cbn [mbind outcome_bind]. rewrite Hrun. reflexivity.
Qed.

Lemma closed_stream_drains_then_returns_witness :
  ∃ s', run (replicate 2 (Stream 0 false RecvCase))
          (closedSession "c1" 0 0
             (Chan.mk [Scenario.r1] chanCap false) (Chan.make chanCap)
             (pushed 0 (Chan.make chanCap) Scenario.r1 Scenario.connected))
        = Done ([Written 0 (RequestFrame Scenario.r1); StreamEnd 0], s')
        ∧ requestBuf 0 s' = [].
Proof.
  exact (closed_stream_drains_then_returns [Scenario.r1] 0
           (Chan.mk [Scenario.r1] chanCap true) RecvCase
           (closedSession "c1" 0 0
              (Chan.mk [Scenario.r1] chanCap false) (Chan.make chanCap)
              (pushed 0 (Chan.make chanCap) Scenario.r1 Scenario.connected))
           eq_refl eq_refl eq_refl).
Defined.

(** ** A second connection under the same identifier *)

(** X6.  When a client identifier that has a session connects again and
    the handler of the first connection then returns, its deferred
    [removeClient] tears down the second session: it closes the channels
    of the second connection and deletes the identifier.  The stream loop
    of the second connection returns, the [removeClient] it defers is a
    no-op, a dispatch to the identifier answers 404, and the push channel
    of the first connection is left open for good. *)
Theorem first_exit_ends_second_session clientID ch0 rh0 s :
  wf s → clients s !! clientID = Some ch0 → responses s !! clientID = Some rh0 →
  ∃ ch1 s1 s2,
    addClient clientID s = (ch1, s1)
    ∧ events_exit clientID s1 = Done s2
    ∧ clients s2 !! clientID = None ∧ responses s2 !! clientID = None
    ∧ requestChans s2 !! ch1 = Some (Chan.mk [] chanCap true)
    ∧ (∀ pick, events_loop ch1 false pick s2 = Done (Return, s2))
    ∧ events_exit clientID s2 = Done s2
    ∧ (∀ req, trigger_dispatch clientID req s2
              = Done (Replied (mkReply StatusNotFound
                                 (Text "Client not found")), s2))
    ∧ ∃ q, requestChans s !! ch0 = Some q ∧ requestChans s2 !! ch0 = Some q
           ∧ Chan.closed q = false.
Proof.
  intros Hwf Hc Hr.
  pose proof (wf_lookup_lt_requests s _ _ Hwf Hc) as Hlt.
  destruct (wf_requests s Hwf _ _ Hc) as (q & Hq & Hoq & _).
  destruct (addClient_fresh_session clientID s Hwf) as (Hc1 & Hr1 & Hq1 & Hrq1).
  set (s1 := (addClient clientID s).2) in *.
  set (ch1 := length (requestChans s)) in *.
  set (rh1 := length (responseChans s)) in *.
  set (s2 := closedSession clientID ch1 rh1 (Chan.make chanCap)
               (Chan.make chanCap) s1).
  assert (Hq2 : requestChans s2 !! ch1 = Some (Chan.mk [] chanCap true)).
  { simpl. rewrite list_lookup_insert_eq; [done|].
    rewrite length_app. simpl. unfold ch1. lia. }
  assert (Hc2 : clients s2 !! clientID = None)
    by (simpl; by rewrite lookup_delete_eq).
  assert (Hr2 : responses s2 !! clientID = None)
    by (simpl; by rewrite lookup_delete_eq).
  exists ch1, s1, s2. split; [reflexivity|].
  split; [by apply removeClient_present|].
  split; [exact Hc2|]. split; [exact Hr2|]. split; [exact Hq2|].
  split; [intros pick; by eapply events_loop_closed_empty|].
  split; [by apply removeClient_absent|].
  split.
  { intros req. unfold trigger_dispatch.
    by rewrite (sendRequest_absent _ _ _ Hc2). }
  exists q. split; [exact Hq|]. split; [|exact Hoq].
  simpl. rewrite list_lookup_insert_ne by (unfold ch1; lia).
  by rewrite lookup_app_l.
Qed.

Lemma first_exit_ends_second_session_witness :
  ∃ ch1 s1 s2,
    addClient "c1" Scenario.connected = (ch1, s1)
    ∧ events_exit "c1" s1 = Done s2
    ∧ clients s2 !! "c1" = None
    ∧ requestChans s2 !! ch1 = Some (Chan.mk [] chanCap true)
    ∧ requestChans s2 !! 0 = Some (Chan.make chanCap).
Proof.
  destruct (first_exit_ends_second_session "c1" 0 0 Scenario.connected
              wf_connected eq_refl eq_refl)
    as (ch1 & s1 & s2 & Hadd & Hexit & Hc2 & _ & Hq2 & _ & _ & _
        & q & Hq & Hq' & _).
  exists ch1, s1, s2. repeat split; try assumption.
  rewrite Hq'. rewrite <- Hq. reflexivity.
Defined.

(** ** Sessions do not interfere *)

Lemma exec_isolated o s x s' clientID ch rh :
  wf s → clients s !! clientID = Some ch → responses s !! clientID = Some rh →
  touches clientID ch rh o = false →
  exec o s = Done (x, s') →
  clients s' !! clientID = Some ch ∧ responses s' !! clientID = Some rh
  ∧ requestChans s' !! ch = requestChans s !! ch
  ∧ responseChans s' !! rh = responseChans s !! rh.
Proof.
  intros Hwf Hc Hr Ht.
  pose proof (wf_lookup_lt_requests s _ _ Hwf Hc) as Hlt1.
  pose proof (wf_lookup_lt_responses s _ _ Hwf Hr) as Hlt2.
  destruct o as [c|c|c req|c resp|ch' d p|rh' f p]; simpl in *;
    apply bool_decide_eq_false in Ht.
  - intros [= _ <-]. simpl. rewrite !lookup_insert_ne by done.
    by rewrite !lookup_app_l.
  - intros H. apply bind_Done in H as (s1 & Hrm & [= _ <-]).
    destruct (clients s !! c) as [ch1|] eqn:Hc1;
      destruct (responses s !! c) as [rh1|] eqn:Hr1.
    + destruct (wf_requests s Hwf _ _ Hc1) as (q & Hq & Hoq & _).
      destruct (wf_responses s Hwf _ _ Hr1) as (r & Hrq & Hor & _).
      rewrite (removeClient_present c ch1 rh1 q r) in Hrm by done.
      injection Hrm as <-. simpl. rewrite !lookup_delete_ne by done.
      assert (ch1 ≠ ch)
        by (intros ->; apply Ht; by eapply (wf_clients_inj s Hwf)).
      assert (rh1 ≠ rh)
        by (intros ->; apply Ht; by eapply (wf_responses_inj s Hwf)).
      by rewrite !list_lookup_insert_ne.
    + apply (wf_same_keys s Hwf) in Hr1. congruence.
    + apply (wf_same_keys s Hwf) in Hc1. congruence.
    + rewrite removeClient_absent in Hrm by done. by injection Hrm as <-.
  - intros H. apply bind_Done in H as ([o s1] & Hsend & [= _ <-]).
    apply sendRequest_Done in Hsend
      as [(_ & _ & ->)|(ch1 & q & Hc1 & _ & _ & _ & _ & ->)]; [done|].
    simpl. assert (ch1 ≠ ch)
      by (intros ->; apply Ht; by eapply (wf_clients_inj s Hwf)).
    by rewrite list_lookup_insert_ne.
  - intros H. apply bind_Done in H as ([rep s1] & Hsub & [= _ <-]).
    apply response_handler_Done in Hsub
      as [_ [[_ ->]|(rh1 & r & Hr1 & _ & _ & _ & ->)]]; [done|].
    simpl. assert (rh1 ≠ rh)
      by (intros ->; apply Ht; by eapply (wf_responses_inj s Hwf)).
    by rewrite list_lookup_insert_ne.
  - intros H. apply bind_Done in H as ([step s1] & Hloop & Hres).
    assert (s' = s1) as -> by (destruct step; by injection Hres).
    apply events_loop_Done in Hloop as (q & Hq & Hstep).
    destruct step as [fr|]; [|by subst].
    destruct Hstep as (req & rest & _ & _ & ->). simpl.
    by rewrite list_lookup_insert_ne.
  - intros H. apply bind_Done in H as ([rep s1] & Hwait & [= _ <-]).
    apply trigger_wait_Done in Hwait
      as (r & Hr1 & [(_ & -> & _)|[(y & rest & _ & _ & ->)|(_ & _ & -> & _)]]);
      [done | | done].
    simpl. by rewrite list_lookup_insert_ne.
Qed.

(** X7.  Sessions are isolated.  A run in which no step names a client
    and no step works on the two channels of its session leaves the
    session as it was: the same channels are registered for the client
    and they hold what they held, whatever the other clients connect,
    dispatch, submit, stream or disconnect. *)
Theorem other_sessions_leave_session_alone tr :
  ∀ s xs s' clientID ch rh,
    wf s →
    clients s !! clientID = Some ch → responses s !! clientID = Some rh →
    forallb (λ o, negb (touches clientID ch rh o)) tr = true →
    run tr s = Done (xs, s') →
    clients s' !! clientID = Some ch ∧ responses s' !! clientID = Some rh
    ∧ requestChans s' !! ch = requestChans s !! ch
    ∧ responseChans s' !! rh = responseChans s !! rh.
Proof.
  induction tr as [|o tr IH]; intros s xs s' clientID ch rh Hwf Hc Hr Ht Hrun.
  - simpl in Hrun. by injection Hrun as _ <-.
  - simpl in Hrun, Ht.
    apply bind_Done in Hrun as ([x s1] & Hexec & Hrun).
    apply bind_Done in Hrun as ([xs1 s2] & Hrun & [= _ <-]).
    apply andb_true_iff in Ht as [Ht1 Ht2].
    apply negb_true_iff in Ht1.
    destruct (exec_isolated o s x s1 clientID ch rh Hwf Hc Hr Ht1 Hexec)
      as (Hc1 & Hr1 & Hq1 & Hrq1).
    assert (Hwf1 : wf s1) by (by eapply wf_exec).
    destruct (IH s1 xs1 s2 clientID ch rh Hwf1 Hc1 Hr1 Ht2 Hrun)
      as (Hc2 & Hr2 & Hq2 & Hrq2).
    by rewrite Hq2, Hrq2.
Qed.

Lemma other_sessions_leave_session_alone_witness :
  ∃ xs s',
    run Neighbour.visit Late.s2 = Done (xs, s')
    ∧ clients s' !! "c1" = Some 0 ∧ responses s' !! "c1" = Some 0
    ∧ requestChans s' !! 0 = requestChans Late.s2 !! 0
    ∧ responseChans s' !! 0 = responseChans Late.s2 !! 0.
Proof.
  assert (Hwf : wf Late.s2).
  { apply wf_answered; [|reflexivity|reflexivity].
    apply wf_pushed; [apply wf_connected|reflexivity|reflexivity]. }
  eexists _, _. split; [reflexivity|].
  exact (other_sessions_leave_session_alone Neighbour.visit Late.s2 _ _
           "c1" 0 0 Hwf eq_refl eq_refl eq_refl eq_refl).
Defined.

(** ** The registry changes only on connect and disconnect *)

Lemma exec_keeps_registry o s x s' :
  registry_step o = false → exec o s = Done (x, s') →
  clients s' = clients s ∧ responses s' = responses s
  ∧ length (requestChans s') = length (requestChans s)
  ∧ length (responseChans s') = length (responseChans s).
Proof.
  intros Hreg. destruct o as [c|c|c req|c resp|ch d p|rh f p];
    simpl in *; try discriminate.
  - intros H. apply bind_Done in H as ([o s1] & Hsend & [= _ <-]).
    apply sendRequest_Done in Hsend
      as [(_ & _ & ->)|(ch1 & q & _ & _ & _ & _ & _ & ->)]; [done|].
    simpl. by rewrite length_insert.
  - intros H. apply bind_Done in H as ([rep s1] & Hsub & [= _ <-]).
    apply response_handler_Done in Hsub
      as [_ [[_ ->]|(rh1 & r & _ & _ & _ & _ & ->)]]; [done|].
    simpl. by rewrite length_insert.
  - intros H. apply bind_Done in H as ([step s1] & Hloop & Hres).
    assert (s' = s1) as -> by (destruct step; by injection Hres).
    apply events_loop_Done in Hloop as (q & Hq & Hstep).
    destruct step as [fr|]; [|by subst].
    destruct Hstep as (req & rest & _ & _ & ->). simpl.
    by rewrite length_insert.
  - intros H. apply bind_Done in H as ([rep s1] & Hwait & [= _ <-]).
    apply trigger_wait_Done in Hwait
      as (r & Hr1 & [(_ & -> & _)|[(y & rest & _ & _ & ->)|(_ & _ & -> & _)]]);
      [done | | done].
    simpl. by rewrite length_insert.
Qed.

(** X8.  Only [addClient] and [removeClient] change the registry.  A run
    made of dispatches, submissions, stream iterations and waits, in any
    state and with any outcome short of a panic, leaves both maps as they
    were and makes no channel: no [/trigger] or [/response] call
    registers or unregisters a client, also not for an unknown one. *)
Theorem handlers_keep_registry tr :
  ∀ s xs s',
    forallb (λ o, negb (registry_step o)) tr = true →
    run tr s = Done (xs, s') →
    clients s' = clients s ∧ responses s' = responses s
    ∧ length (requestChans s') = length (requestChans s)
    ∧ length (responseChans s') = length (responseChans s).
Proof.
  induction tr as [|o tr IH]; intros s xs s' Hreg Hrun.
  - simpl in Hrun. by injection Hrun as _ <-.
  - simpl in Hrun, Hreg.
    apply bind_Done in Hrun as ([x s1] & Hexec & Hrun).
    apply bind_Done in Hrun as ([xs1 s2] & Hrun & [= _ <-]).
    apply andb_true_iff in Hreg as [Hr1 Hr2].
    apply negb_true_iff in Hr1.
    destruct (exec_keeps_registry o s x s1 Hr1 Hexec) as (E1 & E2 & E3 & E4).
    destruct (IH s1 xs1 s2 Hr2 Hrun) as (F1 & F2 & F3 & F4).
    by rewrite F1, F2, F3, F4.
Qed.

Lemma handlers_keep_registry_witness :
  ∃ xs s',
    run Neighbour.handlers_only Scenario.connected = Done (xs, s')
    ∧ clients s' = clients Scenario.connected
    ∧ responses s' = responses Scenario.connected
    ∧ length (requestChans s') = 1 ∧ length (responseChans s') = 1.
Proof.
  eexists _, _. split; [reflexivity|].
  exact (handlers_keep_registry Neighbour.handlers_only Scenario.connected
           _ _ eq_refl eq_refl).
Defined.

(** ** Order of the responses of one session *)

Lemma responseBuf_store rh rh' r s :
  responseBuf rh
    (mkServer (clients s) (responses s) (requestChans s)
              (<[rh' := r]> (responseChans s)))
  = if decide (rh = rh' ∧ rh' < length (responseChans s)) then Chan.buf r
    else responseBuf rh s.
Proof.
  unfold responseBuf. simpl. case_decide as Hd.
  - destruct Hd as [-> Hlt]. by rewrite list_lookup_insert_eq.
  - destruct (decide (rh = rh')) as [->|Hne].
    + rewrite list_insert_ge by lia. reflexivity.
    + by rewrite list_lookup_insert_ne.
Qed.

Lemma received_cons rh x xs :
  received rh (x :: xs) = received rh [x] ++ received rh xs.
Proof.
  destruct x as [| | |rh' [st [|t|y]]]; simpl; try reflexivity.
  case_decide; reflexivity.
Qed.

Lemma submitted_cons c o tr :
  submitted c (o :: tr) = submitted c [o] ++ submitted c tr.
Proof. destruct o; simpl; try reflexivity. case_decide; reflexivity. Qed.

Lemma exec_response_order o s x s' clientID rh :
  wf s → responses s !! clientID = Some rh →
  session_kept clientID [o] = true →
  exec o s = Done (x, s') →
  responses s' !! clientID = Some rh
  ∧ received rh [x] ++ responseBuf rh s'
    = responseBuf rh s ++ submitted clientID [o].
Proof.
  intros Hwf Hr Hkept.
  pose proof (wf_lookup_lt_responses s clientID rh Hwf Hr) as Hlt.
  destruct (wf_responses s Hwf _ _ Hr) as (r0 & Hr0 & Hor0 & _).
  destruct o as [c|c|c req|c resp|ch' d p|rh' f p]; simpl in *.
  - intros [= <- <-]. simpl. rewrite andb_true_r in Hkept.
    apply bool_decide_eq_true in Hkept.
    rewrite lookup_insert_ne by done. split; [done|].
    unfold responseBuf. simpl. rewrite lookup_app_l by done.
    by rewrite app_nil_r.
  - rewrite andb_true_r in Hkept. apply bool_decide_eq_true in Hkept.
    intros H. apply bind_Done in H as (s1 & Hrm & [= <- <-]).
    simpl. rewrite app_nil_r.
    destruct (clients s !! c) as [ch1|] eqn:Hc1;
      destruct (responses s !! c) as [rh1|] eqn:Hr1.
    + destruct (wf_requests s Hwf _ _ Hc1) as (q & Hq & Hoq & _).
      destruct (wf_responses s Hwf _ _ Hr1) as (r & Hrq & Hor & _).
      rewrite (removeClient_present c ch1 rh1 q r) in Hrm by done.
      injection Hrm as <-. simpl. rewrite lookup_delete_ne by done.
      split; [done|]. unfold responseBuf. simpl.
      rewrite list_lookup_insert_ne; [done|].
      intros ->. apply Hkept. by eapply (wf_responses_inj s Hwf).
    + apply (wf_same_keys s Hwf) in Hr1. congruence.
    + apply (wf_same_keys s Hwf) in Hc1. congruence.
    + rewrite removeClient_absent in Hrm by done. by injection Hrm as <-.
  - intros H. apply bind_Done in H as ([o s1] & Hsend & [= <- <-]). simpl.
    rewrite app_nil_r.
    apply sendRequest_Done in Hsend
      as [(_ & _ & ->)|(ch1 & q & _ & _ & _ & _ & _ & ->)]; done.
  - intros H. apply bind_Done in H as ([rep s1] & Hsub & [= <- <-]). simpl.
    apply response_handler_Done in Hsub
      as [_ [[Hnone ->]|(rh1 & r & Hr1 & Hrq & Ho & _ & ->)]].
    + split; [done|]. case_decide; [congruence | by rewrite app_nil_r].
    + split; [done|]. unfold answered. rewrite responseBuf_store.
      destruct (decide (c = clientID)) as [->|Hne].
      * rewrite Hr in Hr1. injection Hr1 as <-.
        rewrite decide_True by done.
        unfold responseBuf. by rewrite Hrq.
      * rewrite decide_False; [by rewrite app_nil_r|].
        intros [-> _]. apply Hne. by eapply (wf_responses_inj s Hwf).
  - intros H. apply bind_Done in H as ([step s1] & Hloop & Hres).
    rewrite app_nil_r.
    apply events_loop_Done in Hloop as (q & Hq & Hstep).
    destruct step as [fr|].
    + destruct Hstep as (req & rest & -> & Hb & ->).
      by injection Hres as <- <-.
    + subst s1. by injection Hres as <- <-.
  - intros H. apply bind_Done in H as ([rep s1] & Hwait & [= <- <-]).
    rewrite app_nil_r.
    apply trigger_wait_Done in Hwait
      as (r & Hr1 & [(_ & -> & ->)|[(y & rest & Hb & -> & ->)
                                   |(_ & Hcl & -> & ->)]]).
    + done.
    + split; [done|]. simpl. unfold taken. rewrite responseBuf_store.
      destruct (decide (rh' = rh)) as [->|Hne].
      * rewrite decide_True by done. simpl.
        unfold responseBuf. by rewrite Hr1.
      * rewrite decide_False; [done|]. by intros [-> _].
    + split; [done|]. simpl.
      destruct (decide (rh' = rh)) as [->|Hne]; [|done].
      congruence.
Qed.

(** X9.  Responses reach the dispatches in submission order.  In every
    run that keeps the session of a client, the responses its waiting
    [/trigger] handlers have received, followed by the responses still
    queued, are the responses queued at the start followed by the
    responses submitted for the client, in the order of the [/response]
    calls; none is lost, duplicated or made up. *)
Theorem responses_received_in_submission_order tr :
  ∀ s xs s' clientID rh,
    wf s → responses s !! clientID = Some rh →
    session_kept clientID tr = true →
    run tr s = Done (xs, s') →
    received rh xs ++ responseBuf rh s'
    = responseBuf rh s ++ submitted clientID tr.
Proof.
  induction tr as [|o tr IH]; intros s xs s' clientID rh Hwf Hr Hkept Hrun.
  - simpl in Hrun. injection Hrun as <- <-. simpl. by rewrite app_nil_r.
  - simpl in Hrun.
    apply bind_Done in Hrun as ([x s1] & Hexec & Hrun).
    apply bind_Done in Hrun as ([xs1 s2] & Hrun & [= <- <-]).
    rewrite session_kept_cons in Hkept.
    apply andb_true_iff in Hkept as [Hk1 Hk2].
    destruct (exec_response_order o s x s1 clientID rh Hwf Hr Hk1 Hexec)
      as [Hr1 Hstep].
    assert (Hwf1 : wf s1) by (by eapply wf_exec).
    specialize (IH s1 xs1 s2 clientID rh Hwf1 Hr1 Hk2 Hrun).
    rewrite received_cons, submitted_cons, <-app_assoc, IH.
    by rewrite !app_assoc, Hstep.
Qed.

Lemma responses_received_in_submission_order_witness :
  ∃ xs s',
    run Answers.exchange Scenario.connected = Done (xs, s')
    ∧ received 0 xs ++ responseBuf 0 s' = [Answers.a; Answers.b].
Proof.
  eexists _, _. split; [reflexivity|].
  exact (responses_received_in_submission_order Answers.exchange
           Scenario.connected _ _ "c1" 0 wf_connected
           eq_refl eq_refl eq_refl).
Defined.

(** ** Generated identifiers *)

(** X10.  The identifiers the server generates are determined by the
    Unix second alone: two request identifiers are equal exactly when
    they were made in the same second, and so are the identifiers given
    to two clients that connect without a [client_id]. *)
Theorem generated_identifiers_differ_by_second now1 now2 :
  (requestID now1 = requestID now2 ↔ now1 = now2)
  ∧ (eventsClientID "" now1 = eventsClientID "" now2 ↔ now1 = now2).
Proof.
  split; (split; [|by intros ->]).
  - apply requestID_inj.
  - unfold eventsClientID. simpl. intros H. injection H as H.
    by apply (inj pretty).
Qed.

(** * The wire format and the basic demo *)

(** ** Strings *)

Lemma str_app_cons c (s t : string) : String c s +:+ t = String c (s +:+ t).
Proof. reflexivity. Qed.

Lemma str_app_nil_l (t : string) : "" +:+ t = t.
Proof. reflexivity. Qed.

Lemma str_app_nil_r (s : string) : s +:+ "" = s.
Proof. induction s as [|c s IH]; [done|]. by rewrite str_app_cons, IH. Qed.

Lemma str_app_assoc (s t u : string) : (s +:+ t) +:+ u = s +:+ (t +:+ u).
Proof.
  induction s as [|c s IH]; [done|]. by rewrite !str_app_cons, IH.
Qed.

Lemma str_length_app (s t : string) :
  String.length (s +:+ t) = String.length s + String.length t.
Proof.
  induction s as [|c s IH]; [done|]. rewrite str_app_cons. simpl. by rewrite IH.
Qed.

Lemma no_LF_app (s t : string) : no_LF (s +:+ t) = no_LF s && no_LF t.
Proof.
  induction s as [|c s IH]; [done|]. rewrite str_app_cons. simpl.
  by rewrite IH, andb_assoc.
Qed.

Lemma ends_with_CR_app (s t : string) :
  t ≠ ""%string → ends_with_CR (s +:+ t) = ends_with_CR t.
Proof.
  intros Ht. induction s as [|c s IH]; [done|]. rewrite str_app_cons.
  simpl. rewrite IH. destruct (s +:+ t) eqn:Hst; [|done].
  destruct s; [by rewrite str_app_nil_l in Hst | discriminate].
Qed.

Lemma dropCR_id (s : string) : ends_with_CR s = false → dropCR s = s.
Proof.
  induction s as [|c s IH]; [done|]. simpl. destruct s as [|c' s].
  - by intros ->.
  - intros H. by rewrite IH.
Qed.

Lemma HasPrefix_app (p s : string) : HasPrefix (p +:+ s) p = true.
Proof.
  unfold HasPrefix. induction p as [|c p IH]; [by destruct s|].
  rewrite str_app_cons. simpl. by destruct (Ascii.ascii_dec c c).
Qed.

Lemma string_drop_app (p s : string) : string_drop (String.length p) (p +:+ s) = s.
Proof. induction p as [|c p IH]; [done|]. by rewrite str_app_cons. Qed.

Lemma TrimPrefix_app (p s : string) : TrimPrefix (p +:+ s) p = s.
Proof. unfold TrimPrefix. by rewrite HasPrefix_app, string_drop_app. Qed.

(** ** Scanning records *)

(** A line without line feed that fits the buffer, followed by a line
    feed: the scanner delivers it and goes on behind the line feed. *)
Lemma scan_go_line (p : string) :
  ∀ cur rest,
    no_LF p = true →
    (N.of_nat (String.length (cur +:+ p)) < MaxScanTokenSize)%N →
    scan_lines_go cur (p +:+ String LF rest)
    = (dropCR (cur +:+ p) :: (scan_lines_go "" rest).1,
       (scan_lines_go "" rest).2).
Proof.
  induction p as [|c p IH]; intros cur rest Hp Hlen.
  - rewrite str_app_nil_l, str_app_nil_r. simpl.
    by destruct (scan_lines_go "" rest).
  - rewrite str_app_cons. simpl in Hp.
    apply andb_true_iff in Hp as [Hc Hp]. apply negb_true_iff in Hc.
    cbn [scan_lines_go]. rewrite Hc.
    assert (Heq : cur +:+ String c p = (cur +:+ String c "") +:+ p)
      by (by rewrite str_app_assoc).
    rewrite Heq in Hlen |- *.
    assert ((N.of_nat (String.length (cur +:+ String c ""))
             <? MaxScanTokenSize)%N = true) as ->.
    { apply N.ltb_lt. rewrite str_length_app in Hlen. lia. }
    by apply IH.
Qed.

Lemma scan_record payload rest :
  wire_safe payload →
  scan_lines_go "" (sse_record payload +:+ rest)
  = (("data: " +:+ payload) :: ""%string :: (scan_lines_go "" rest).1,
     (scan_lines_go "" rest).2).
Proof.
  intros (Hlf & Hcr & Hlen). unfold sse_record.
  assert (Heq : ("data: " +:+ payload +:+ String LF (String LF "")) +:+ rest
                = ("data: " +:+ payload) +:+ String LF (String LF rest)).
  { by rewrite <- (str_app_assoc "data: "), (str_app_assoc _ _ rest). }
  rewrite Heq, scan_go_line.
  - rewrite str_app_nil_l. rewrite dropCR_id.
    + cbn [scan_lines_go]. change (Ascii.eqb LF LF) with true. cbn iota.
      by destruct (scan_lines_go "" rest).
    + destruct payload as [|c payload]; [done|].
      by rewrite ends_with_CR_app.
  - by rewrite no_LF_app, Hlf.
  - rewrite str_app_nil_l, str_length_app. simpl String.length. lia.
Qed.

Lemma basic_client_line_data payload :
  basic_client_line ("data: " +:+ payload) = Some (Received payload).
Proof.
  unfold basic_client_line. rewrite decide_False by done.
  by rewrite HasPrefix_app, TrimPrefix_app.
Qed.

Lemma scan_records payloads :
  Forall wire_safe payloads →
  scan_lines (stream_text (sse_record <$> payloads))
  = (payloads ≫= (λ p, ["data: " +:+ p; ""%string]), false).
Proof.
  unfold scan_lines. induction 1 as [|p ps Hp Hps IH]; [done|].
  cbn [fmap list_fmap stream_text foldr].
  rewrite scan_record by done.
  unfold stream_text in IH. cbn [fmap] in IH. rewrite IH. done.
Qed.

Lemma basic_client_receives_payloads_aux payloads :
  Forall wire_safe payloads →
  basic_client (stream_text (sse_record <$> payloads))
  = (Received <$> payloads, false).
Proof.
  intros Hsafe. unfold basic_client. rewrite scan_records by done.
  f_equal. clear Hsafe. induction payloads as [|p ps IH]; [done|].
  cbn [mbind list_bind app omap list_omap fmap list_fmap].
  rewrite basic_client_line_data. cbn. by rewrite IH.
Qed.

(** X11.  The framing round trip.  When every payload is free of line
    feeds, does not end in a carriage return and is shorter than the
    scanner's buffer, the basic client reading the records written for
    these payloads logs exactly these payloads as received, in order, and
    the scan ends without error. *)
Theorem basic_client_receives_payloads payloads :
  Forall wire_safe payloads →
  scan_lines (stream_text (sse_record <$> payloads))
  = (payloads ≫= (λ p, ["data: " +:+ p; ""%string]), false)
  ∧ basic_client (stream_text (sse_record <$> payloads))
    = (Received <$> payloads, false).
Proof.
  intros Hsafe. split.
  - by apply scan_records.
  - by apply basic_client_receives_payloads_aux.
Qed.

Lemma basic_client_receives_payloads_witness :
  basic_client (stream_text (sse_record <$> Wire.short))
  = ([Received "Event 1 at 15:04:05"; Received "hello"], false).
Proof.
  apply (basic_client_receives_payloads Wire.short).
  repeat constructor.
Defined.

(** A line without line feed that outgrows the buffer ends the scan. *)
Lemma scan_go_too_long (p : string) :
  ∀ cur rest,
    no_LF p = true →
    (N.of_nat (String.length cur) < MaxScanTokenSize)%N →
    (MaxScanTokenSize ≤ N.of_nat (String.length (cur +:+ p)))%N →
    scan_lines_go cur (p +:+ rest) = ([], true).
Proof.
  induction p as [|c p IH]; intros cur rest Hp Hcur Hlen.
  - rewrite str_app_nil_r in Hlen. lia.
  - rewrite str_app_cons. simpl in Hp.
    apply andb_true_iff in Hp as [Hc Hp]. apply negb_true_iff in Hc.
    cbn [scan_lines_go]. rewrite Hc.
    destruct (N.ltb_spec (N.of_nat (String.length (cur +:+ String c "")))
                MaxScanTokenSize) as [Hlt|Hge]; [|done].
    apply IH; [done | done |].
    by rewrite str_app_assoc.
Qed.

(** X12.  A record too long for the scanner ends the client.  When the
    records of some well-formed payloads are followed by the record of a
    payload without line feed of 65530 bytes or more, the basic client
    logs the payloads before it, stops there with the scanner's
    [ErrTooLong], and sees nothing of what the server wrote after it. *)
Theorem long_record_ends_basic_client payloads long rest :
  Forall wire_safe payloads →
  no_LF long = true →
  (MaxScanTokenSize ≤ N.of_nat (String.length long) + 6)%N →
  basic_client (stream_text (sse_record <$> payloads)
                +:+ sse_record long +:+ rest)
  = (Received <$> payloads, true).
Proof.
  intros Hsafe Hlf Hlen.
  assert (Hscan : scan_lines (stream_text (sse_record <$> payloads)
                              +:+ sse_record long +:+ rest)
                  = (payloads ≫= (λ p, ["data: " +:+ p; ""%string]), true)).
  { unfold scan_lines. induction Hsafe as [|p ps Hp Hps IH].
    - cbn [fmap list_fmap stream_text foldr]. rewrite str_app_nil_l.
      unfold sse_record. rewrite !str_app_assoc.
      rewrite <- (str_app_assoc "data: " long).
      rewrite scan_go_too_long; [done| | |].
      + by rewrite no_LF_app, Hlf.
      + done.
      + rewrite str_app_nil_l, str_length_app. simpl String.length. lia.
    - cbn [fmap list_fmap stream_text foldr]. rewrite str_app_assoc.
      rewrite scan_record by done.
      unfold stream_text in IH. cbn [fmap] in IH. by rewrite IH. }
  unfold basic_client. rewrite Hscan. f_equal.
  clear. induction payloads as [|p ps IH]; [done|].
  cbn [mbind list_bind app omap list_omap fmap list_fmap].
  rewrite basic_client_line_data. cbn. by rewrite IH.
Qed.

Lemma long_record_ends_basic_client_witness :
  basic_client (stream_text (sse_record <$> Wire.short)
                +:+ sse_record Wire.long +:+ sse_record "after")
  = ([Received "Event 1 at 15:04:05"; Received "hello"], true).
Proof.
  apply (long_record_ends_basic_client Wire.short Wire.long
           (sse_record "after")).
  - repeat constructor.
  - vm_compute. reflexivity.
  - apply N.leb_le. vm_compute. reflexivity.
Defined.

(** ** The basic server and the basic client together *)

Lemma no_LF_pretty_N_go x : ∀ s, no_LF s = true → no_LF (pretty_N_go x s) = true.
Proof.
  induction (N.lt_wf_0 x) as [x _ IH]; intros s Hs.
  assert (x = 0 ∨ 0 < x)%N as [->|Hpos] by lia.
  - by rewrite pretty_N_go_0.
  - rewrite pretty_N_go_step by done. apply IH; [by apply N.div_lt|].
    simpl. rewrite Hs. unfold pretty_N_char. by repeat case_match.
Qed.

Lemma no_LF_pretty_nat (n : nat) : no_LF (pretty n) = true.
Proof.
  unfold pretty, pretty_nat, pretty, pretty_N. case_decide; [done|].
  by apply no_LF_pretty_N_go.
Qed.

Lemma pretty_small_length (n : nat) : n ≤ 10 → String.length (pretty n) ≤ 2.
Proof.
  intros Hn. do 11 (destruct n as [|n]; [vm_compute; lia|]). lia.
Qed.

Lemma basic_event_wire_safe (i : nat) (stamp : string) :
  i ≤ 10 →
  no_LF stamp = true → ends_with_CR stamp = false → String.length stamp = 8 →
  wire_safe (basic_event_payload i stamp).
Proof.
  intros Hi Hlf Hcr Hlen. unfold basic_event_payload. split; [|split].
  - by rewrite !no_LF_app, no_LF_pretty_nat, Hlf.
  - rewrite <- !str_app_assoc. rewrite ends_with_CR_app; [done|].
    by destruct stamp.
  - rewrite !str_length_app, Hlen.
    pose proof (pretty_small_length i Hi). simpl String.length.
    unfold MaxScanTokenSize. lia.
Qed.

Lemma basic_sse_loop_events n : ∀ i clock writeOk,
  basic_sse_loop n i clock writeOk
  = sse_record
    <$> ((λ j, basic_event_payload j (clock j))
         <$> seq i (writes_before_failure n i writeOk)).
Proof.
  induction n as [|n IH]; intros i clock writeOk; [done|].
  simpl. destruct (writeOk i); [|done]. simpl. by rewrite IH.
Qed.

Lemma writes_before_failure_spec n : ∀ i writeOk,
  writes_before_failure n i writeOk ≤ n
  ∧ (∀ j, i ≤ j < i + writes_before_failure n i writeOk → writeOk j = true)
  ∧ (writes_before_failure n i writeOk < n →
     writeOk (i + writes_before_failure n i writeOk) = false).
Proof.
  induction n as [|n IH]; intros i writeOk; simpl.
  - split; [lia|]. split; [intros j; lia | lia].
  - destruct (writeOk i) eqn:Hok.
    + destruct (IH (S i) writeOk) as (Hle & Hall & Hstop).
      split; [lia|]. split.
      * intros j Hj. destruct (decide (j = i)) as [->|Hne]; [done|].
        apply Hall. lia.
      * intros Hlt. replace (i + S (writes_before_failure n (S i) writeOk))
          with (S i + writes_before_failure n (S i) writeOk) by lia.
        apply Hstop. lia.
    + split; [lia|]. split; [intros j; lia|].
      intros _. by rewrite Nat.add_0_r.
Qed.

(** X13.  The basic demo end to end.  The basic server writes the events
    1, 2, ... without gaps, at most ten of them, and none after the first
    write that fails.  When the formatted clock readings are eight bytes
    of time without line break, the basic client reading that stream logs
    exactly ["Event i at <time>"] for each event written, in order, and
    ends without error. *)
Theorem basic_demo_end_to_end (clock : nat → string) (writeOk : nat → bool) :
  (∀ i, no_LF (clock i) = true ∧ ends_with_CR (clock i) = false
        ∧ String.length (clock i) = 8) →
  ∃ k, k ≤ 10
       ∧ (∀ i, 1 ≤ i ≤ k → writeOk i = true)
       ∧ (k < 10 → writeOk (S k) = false)
       ∧ basic_client (stream_text (basic_sse_server clock writeOk))
         = ((λ i, Received ("Event " +:+ pretty i +:+ " at " +:+ clock i))
            <$> seq 1 k, false).
Proof.
  intros Hclock. exists (writes_before_failure 10 1 writeOk).
  destruct (writes_before_failure_spec 10 1 writeOk) as (Hle & Hall & Hstop).
  split; [exact Hle|]. split; [intros i Hi; apply Hall; lia|].
  split; [exact Hstop|].
  unfold basic_sse_server. rewrite basic_sse_loop_events.
  rewrite basic_client_receives_payloads_aux.
  - by rewrite <- list_fmap_compose.
  - apply Forall_fmap, Forall_forall. intros i Hi.
    apply elem_of_seq in Hi. destruct (Hclock i) as (Hlf & Hcr & Hlen).
    apply basic_event_wire_safe; [lia|done..].
Qed.

Lemma basic_demo_end_to_end_witness :
  ∃ k, k ≤ 10
       ∧ (k < 10 → Wire.three_writes (S k) = false)
       ∧ basic_client (stream_text
                         (basic_sse_server Wire.clock Wire.three_writes))
         = ((λ i, Received ("Event " +:+ pretty i +:+ " at 15:04:05"))
            <$> seq 1 k, false).
Proof.
  destruct (basic_demo_end_to_end Wire.clock Wire.three_writes)
    as (k & Hle & _ & Hstop & Hlog).
  - intros i. repeat split.
  - exists k. split; [exact Hle|]. split; [exact Hstop | exact Hlog].
Defined.

(** * The bidirectional client *)

Lemma client_id_payload_wire_safe clientID :
  no_LF clientID = true →
  (N.of_nat (String.length clientID) + 40 < MaxScanTokenSize)%N →
  wire_safe (client_id_payload clientID).
Proof.
  intros Hlf Hlen. unfold client_id_payload. split; [|split].
  - rewrite !no_LF_app, Hlf. reflexivity.
  - rewrite <- !str_app_assoc. by rewrite ends_with_CR_app.
  - rewrite !str_length_app. simpl String.length. lia.
Qed.

Section client_facts.
Context (unmarshalClientID : string → option ClientIDMessage.t).
Context (unmarshalRequest : string → option Request.t).

Lemma client_line_empty clientID :
  client_line unmarshalClientID unmarshalRequest clientID "" = (clientID, None).
Proof. reflexivity. Qed.

Lemma client_line_data clientID payload :
  client_line unmarshalClientID unmarshalRequest clientID ("data: " +:+ payload)
  = match unmarshalClientID payload with
    | Some m =>
        if decide (ClientIDMessage.Type_ m = "client_id"%string)
        then (ClientIDMessage.ID m, None)
        else (clientID, client_request unmarshalRequest clientID payload)
    | None => (clientID, client_request unmarshalRequest clientID payload)
    end.
Proof.
  unfold client_line.
  assert (bool_decide ("data: " +:+ payload = ""%string)
          || HasPrefix ("data: " +:+ payload) ":" = false) as -> by done.
  by rewrite HasPrefix_app, TrimPrefix_app.
Qed.

Lemma client_line_request clientID payload request :
  decodes_as_request unmarshalClientID unmarshalRequest payload request →
  client_line unmarshalClientID unmarshalRequest clientID ("data: " +:+ payload)
  = (clientID, Some (clientID, client_answer request)).
Proof.
  intros [Hreq Hnot]. rewrite client_line_data. unfold client_request.
  rewrite Hreq. destruct (unmarshalClientID payload) as [m|]; [|done].
  rewrite decide_False; [done|]. by apply Hnot.
Qed.

Lemma client_loop_requests (marshal : Request.t → string) clientID requests :
  Forall (λ r, decodes_as_request unmarshalClientID unmarshalRequest
                 (marshal r) r) requests →
  client_loop unmarshalClientID unmarshalRequest clientID
    ((marshal <$> requests) ≫= (λ p, ["data: " +:+ p; ""%string]))
  = (λ r, (clientID, client_answer r)) <$> requests.
Proof.
  induction 1 as [|r rs Hr Hrs IH]; [done|].
  cbn [fmap list_fmap mbind list_bind app client_loop].
  rewrite (client_line_request _ _ r) by done.
  rewrite client_line_empty. cbn. by rewrite IH.
Qed.

End client_facts.

Lemma frames_stream_text (marshal : Request.t → string) clientID requests :
  stream_text (frame_text marshal
               <$> (ClientIDFrame clientID :: (RequestFrame <$> requests)))
  = stream_text (sse_record
                 <$> (client_id_payload clientID :: (marshal <$> requests))).
Proof.
  assert (Hmap : frame_text marshal <$> (RequestFrame <$> requests)
                 = sse_record <$> (marshal <$> requests)).
  { induction requests as [|r rs IH]; [done|].
    rewrite !fmap_cons. by rewrite IH. }
  rewrite !fmap_cons. by rewrite Hmap.
Qed.

(** X14.  The client answers what the server streams.  Let the server
    write the client-id record and then the records of some requests, let
    the identifier and the marshalled requests be free of line feeds and
    within the scanner's buffer, and let unmarshalling undo the
    marshalling of these texts.  Then the client posts one response per
    request, in the order of the requests, each carrying the identifier
    of its request and the result of [processRequest], and each posted
    under the client identifier of the first record. *)
Theorem client_answers_streamed_requests
    (marshal : Request.t → string)
    (unmarshalClientID : string → option ClientIDMessage.t)
    (unmarshalRequest : string → option Request.t) clientID requests :
  no_LF clientID = true →
  (N.of_nat (String.length clientID) + 40 < MaxScanTokenSize)%N →
  Forall (λ r, wire_safe (marshal r)) requests →
  unmarshalClientID (client_id_payload clientID)
  = Some (ClientIDMessage.mk "client_id" clientID) →
  Forall (λ r, decodes_as_request unmarshalClientID unmarshalRequest
                 (marshal r) r) requests →
  bidirectional_client unmarshalClientID unmarshalRequest
    (stream_text (frame_text marshal
                  <$> (ClientIDFrame clientID :: (RequestFrame <$> requests))))
  = ((λ r, (clientID,
            Response.mk (Request.ID r) (processRequest r))) <$> requests,
     false).
Proof.
  intros Hlf Hlen Hsafe Hcid Hdec.
  rewrite frames_stream_text. unfold bidirectional_client.
  rewrite scan_records.
  2:{ constructor; [by apply client_id_payload_wire_safe|].
      by apply Forall_fmap. }
  f_equal. cbn [mbind list_bind app client_loop].
  rewrite client_line_data, Hcid. cbn [ClientIDMessage.Type_ ClientIDMessage.ID].
  rewrite decide_True by done. rewrite client_line_empty.
  cbn [option_list app].
  by rewrite (client_loop_requests _ _ marshal).
Qed.

Lemma client_answers_streamed_requests_witness :
  bidirectional_client Codec.unmarshalClientID Codec.unmarshalRequest
    (stream_text (frame_text Codec.marshal
                  <$> [ClientIDFrame "c1"; RequestFrame Scenario.r1]))
  = ([("c1"%string, Response.mk "req_100" (processRequest Scenario.r1))],
     false).
Proof.
  apply (client_answers_streamed_requests Codec.marshal
           Codec.unmarshalClientID Codec.unmarshalRequest "c1" [Scenario.r1]).
  - reflexivity.
  - reflexivity.
  - repeat constructor.
  - reflexivity.
  - repeat constructor. intros m. vm_compute. discriminate.
Defined.

(** * One request through server and client *)

(** X15.  A full round trip.  For a connected client whose two queues
    are empty, a [/trigger] with a non-empty message enqueues the request
    [req_<second>] with method [analyze]; the stream loop writes exactly
    this request and empties the push channel; when the client's answer
    to it is posted to [/response], the waiting [/trigger] answers 200
    with the identifier of the request and the analysis text for the
    message, and both queues are empty again. *)
Theorem round_trip_through_client clientID message now ch rh pick s :
  wf s → clientID ≠ ""%string → message ≠ ""%string →
  clients s !! clientID = Some ch → responses s !! clientID = Some rh →
  requestBuf ch s = [] → responseBuf rh s = [] →
  ∃ s1 s2 s3 s4,
    trigger_start clientID message now s = Done (Waiting rh, s1)
    ∧ events_loop ch false pick s1
      = Done (Wrote (RequestFrame (newRequest now message)), s2)
    ∧ response_handler "POST"
        (Some (client_answer (newRequest now message))) clientID s2
      = Done (mkReply StatusOK NoBody, s3)
    ∧ trigger_wait rh false pick s3
      = Done (mkReply StatusOK
                (Json (Response.mk (requestID now)
                         ("Analysis result for '" +:+ message
                          +:+ "': This message contains "
                          +:+ pretty (String.length message)
                          +:+ " characters and appears to be a analyze request."))),
              s4)
    ∧ requestBuf ch s4 = [] ∧ responseBuf rh s4 = [].
Proof.
  intros Hwf Hcid Hmsg Hc Hrh Hqb Hrb.
  destruct (wf_requests s Hwf _ _ Hc) as (q & Hq & Hoq & Hcapq).
  destruct (wf_responses s Hwf _ _ Hrh) as (r & Hr & Hor & Hcapr).
  unfold requestBuf in Hqb. rewrite Hq in Hqb. simpl in Hqb.
  rewrite (responseBuf_lookup _ _ _ Hr) in Hrb.
  set (req := newRequest now message).
  set (q1 := Chan.mk (Chan.buf q ++ [req]) (Chan.cap q) false).
  set (r1 := Chan.mk (Chan.buf r ++ [client_answer req]) (Chan.cap r) false).
  set (s1 := pushed ch q req s).
  set (s2 := popped ch q1 [] s1).
  set (s3 := answered rh r (client_answer req) s2).
  set (s4 := taken rh r1 [] s3).
  assert (Hq1 : requestChans s1 !! ch = Some q1).
  { simpl. rewrite list_lookup_insert_eq; [done|]. by eapply lookup_lt_Some. }
  assert (Hr3 : responseChans s3 !! rh = Some r1).
  { simpl. rewrite list_lookup_insert_eq; [done|]. by eapply lookup_lt_Some. }
  exists s1, s2, s3, s4.
  split. { apply trigger_start_room; try done.
           rewrite Hqb, Hcapq. unfold chanCap. simpl. lia. }
  split. { eapply events_loop_head; [exact Hq1|]. unfold q1. simpl.
           by rewrite Hqb. }
  split. { apply response_handler_room; try done.
           rewrite Hrb, Hcapr. unfold chanCap. simpl. lia. }
  split. { erewrite trigger_wait_recv; [reflexivity|exact Hr3|].
           unfold r1. simpl. by rewrite Hrb. }
  split.
  - unfold requestBuf. simpl. rewrite list_insert_insert_eq.
    rewrite list_lookup_insert_eq; [done|]. by eapply lookup_lt_Some.
  - unfold responseBuf. simpl. rewrite list_insert_insert_eq.
    rewrite list_lookup_insert_eq; [done|]. by eapply lookup_lt_Some.
Qed.

Lemma round_trip_through_client_witness :
  ∃ s1 s2 s3 s4,
    trigger_start "c1" "hello" 2 Scenario.connected = Done (Waiting 0, s1)
    ∧ events_loop 0 false RecvCase s1
      = Done (Wrote (RequestFrame (newRequest 2 "hello")), s2)
    ∧ response_handler "POST"
        (Some (client_answer (newRequest 2 "hello"))) "c1" s2
      = Done (mkReply StatusOK NoBody, s3)
    ∧ trigger_wait 0 false RecvCase s3
      = Done (mkReply StatusOK
                (Json (Response.mk "req_2"
                         "Analysis result for 'hello': This message contains 5 characters and appears to be a analyze request.")),
              s4)
    ∧ requestBuf 0 s4 = [] ∧ responseBuf 0 s4 = [].
Proof.
  apply (round_trip_through_client "c1" "hello" 2 0 0 RecvCase
           Scenario.connected wf_connected);
    try discriminate; reflexivity.
Defined.

(** * The registry in every reachable state *)

(** X16.  In every state the server reaches from [NewServer]: a client
    identifier has a push channel exactly when it has a response channel;
    the channels registered for it exist and are open; and two different
    identifiers never share a push channel or a response channel. *)
Theorem registry_consistent_when_reachable tr xs s :
  run tr NewServer = Done (xs, s) →
  (∀ c, is_Some (clients s !! c) ↔ is_Some (responses s !! c))
  ∧ (∀ c ch, clients s !! c = Some ch →
       ∃ q, requestChans s !! ch = Some q ∧ Chan.closed q = false)
  ∧ (∀ c rh, responses s !! c = Some rh →
       ∃ r, responseChans s !! rh = Some r ∧ Chan.closed r = false)
  ∧ (∀ c1 c2 ch, clients s !! c1 = Some ch → clients s !! c2 = Some ch →
       c1 = c2)
  ∧ (∀ c1 c2 rh, responses s !! c1 = Some rh → responses s !! c2 = Some rh →
       c1 = c2).
Proof.
  intros Hrun. pose proof (wf_run tr _ _ _ wf_NewServer Hrun) as Hwf.
  split; [|split; [|split; [|split]]].
  - intros c. rewrite <- !not_eq_None_Some.
    by rewrite (wf_same_keys s Hwf c).
  - intros c ch Hc. destruct (wf_requests s Hwf _ _ Hc) as (q & Hq & Ho & _).
    by exists q.
  - intros c rh Hr. destruct (wf_responses s Hwf _ _ Hr) as (r & Hq & Ho & _).
    by exists r.
  - apply (wf_clients_inj s Hwf).
  - apply (wf_responses_inj s Hwf).
Qed.

Lemma registry_consistent_when_reachable_witness :
  (is_Some (clients Full.full !! "c1") ↔ is_Some (responses Full.full !! "c1"))
  ∧ (is_Some (clients Full.full !! "c2") ↔ is_Some (responses Full.full !! "c2")).
Proof.
  destruct (registry_consistent_when_reachable
              (Connect "c1" :: replicate 10 (Dispatch "c1" Full.req))
              (Silent :: replicate 10 Silent) Full.full eq_refl)
    as (Hkeys & _).
  split; apply Hkeys.
Defined.

(** * A suspended dispatch goes on when the stream takes a request *)

(** X17.  With 10 requests queued for a client a dispatch is suspended;
    one iteration of the client's stream loop writes the oldest request,
    and the same dispatch then goes through at once and is queued last. *)
Theorem stream_iteration_releases_dispatch clientID req ch q pick s :
  wf s → clients s !! clientID = Some ch → requestChans s !! ch = Some q →
  length (Chan.buf q) = 10 →
  sendRequest clientID req s = Blocks
  ∧ ∃ oldest rest s1 s2,
      Chan.buf q = oldest :: rest
      ∧ events_loop ch false pick s = Done (Wrote (RequestFrame oldest), s1)
      ∧ sendRequest clientID req s1 = Done (responses s !! clientID, s2)
      ∧ requestBuf ch s2 = rest ++ [req].
Proof.
  intros Hwf Hc Hq Hlen.
  destruct (wf_requests s Hwf _ _ Hc) as (q' & Hq' & Ho & Hcap).
  rewrite Hq in Hq'. injection Hq' as <-.
  split. { eapply sendRequest_full; try done. rewrite Hcap, Hlen. done. }
  destruct (Chan.buf q) as [|oldest rest] eqn:Hb; [discriminate|].
  set (q1 := Chan.mk rest (Chan.cap q) (Chan.closed q)).
  assert (Hq1 : requestChans (popped ch q rest s) !! ch = Some q1).
  { simpl. rewrite list_lookup_insert_eq; [done|]. by eapply lookup_lt_Some. }
  exists oldest, rest, (popped ch q rest s), (pushed ch q1 req (popped ch q rest s)).
  split; [done|]. split; [by eapply events_loop_head|]. split.
  - rewrite (sendRequest_room _ _ ch q1); try done.
    unfold q1. simpl. rewrite Hcap. simpl in Hlen. unfold chanCap. lia.
  - unfold requestBuf. simpl. rewrite list_insert_insert_eq.
    rewrite list_lookup_insert_eq; [done|]. by eapply lookup_lt_Some.
Qed.

Lemma stream_iteration_releases_dispatch_witness :
  sendRequest "c1" Scenario.r1 Full.full = Blocks
  ∧ ∃ oldest rest s1 s2,
      replicate 10 Full.req = oldest :: rest
      ∧ events_loop 0 false RecvCase Full.full
        = Done (Wrote (RequestFrame oldest), s1)
      ∧ sendRequest "c1" Scenario.r1 s1
        = Done (responses Full.full !! "c1", s2)
      ∧ requestBuf 0 s2 = rest ++ [Scenario.r1].
Proof.
  exact (stream_iteration_releases_dispatch "c1" Scenario.r1 0
           (Chan.mk (replicate 10 Full.req) chanCap false) RecvCase Full.full
           wf_full eq_refl eq_refl eq_refl).
Defined.
